(** * TMDiscord: the session and scoring engine, embedded and verified

    A shallow embedding of the character loader ([cogs/character_loader.py]),
    of the game session and the game manager ([cogs/game_manager.py]) and of
    the constants of [config.py] they read, followed by the properties of the
    engine that the specification states.  The utilities
    [utils/yaml_parser.py] and [utils/session_manager.py], the feedback
    modal of [cogs/feedback.py] and the tables of [cogs/database.py] are
    embedded as well, with the properties their code shows.

    Conventions of the embedding.
    - A YAML mapping whose keys are fixed by the content-file format is a
      record of [option] fields: [None] is "key absent".  Every present field
      is taken to hold a value of the type the format gives it.
    - A Python [dict] is a [gmap]; the [decisions] mapping, whose insertion
      order the stable sort of [Character.__init__] can expose, is an
      association list in insertion order.
    - [datetime] values are integers, the number of microseconds since some
      epoch (the resolution of [datetime]); the clock reading [datetime.now()]
      is an argument of every operation that reads the clock.
    - [uuid.uuid4()] is a counter: the n-th draw is the token [n].
    - Python's float division is exact rational arithmetic ([Qc]).
    - The keys of the [decisions] mapping are integers or strings.  The sort
      key of [Character.__init__] is embedded as it works on integers and on
      ASCII strings ([Sorting.plain_key]); the statements about the order
      of the decisions are made for such keys.
    - The INTEGER columns of the database are integers.  SQLite's have 64
      bits; the statements about the sums kept in them are made for values
      within that range ([DatabaseTables.int64]).
    - Calls of [logger] are left out, except in the validator, whose warning
      the specification speaks about.  The log is never read by the code. *)

From stdpp Require Import gmap strings list fin_maps numbers sorting.
From Stdlib Require Import Ascii QArith Qcanon.

Local Open Scope Z_scope.

(** ** config.py *)

Module Config.

(** Seconds before a game session times out due to inactivity. *)
Definition GAME_TIMEOUT : Z := 300.

Definition MIN_RATING : Z := 1.
Definition MAX_RATING : Z := 5.

Definition REQUIRED_CHARACTER_FIELDS : list string :=
  ["name"; "title"; "starting_year"; "initial_capital";
   "key_principles"; "decisions"; "analysis_templates"]%string.

Definition REQUIRED_DECISION_FIELDS : list string :=
  ["year"; "context"; "question"; "choices"; "correct_choice"]%string.

End Config.

(** ** The content files, as [yaml.safe_load] returns them *)

(** One entry of a decision's [choices] mapping. *)
Record ChoiceData := mkChoice {
  choice_text : option string;
  choice_score : option Z;
  choice_outcome : option string
}.

(** One entry of the [decisions] mapping. *)
Record Decision := mkDecision {
  d_year : option Z;
  d_context : option string;
  d_question : option string;
  d_choices : option (gmap string ChoiceData);
  d_correct_choice : option string;
  d_historical_context : option string
}.

(** One entry of [analysis_templates]. *)
Record Template := mkTemplate {
  tpl_text : option string;
  tpl_principles : option (list string)
}.

(** A key of the [decisions] mapping: YAML gives an integer or a string. *)
Inductive dkey := KInt (n : Z) | KStr (s : string).

(** The top-level mapping of a character file. *)
Record CharacterData := mkData {
  cd_name : option string;
  cd_title : option string;
  cd_starting_year : option Z;
  cd_initial_capital : option Z;
  cd_key_principles : option (list string);
  cd_decisions : option (list (dkey * Decision));
  cd_analysis_templates : option (gmap string Template)
}.

(** [dict.get(key, default)] on a field of such a record. *)
Definition get_or {A} (field : option A) (dflt : A) : A := default dflt field.

(** ** sorted(..., key=...) *)

Module Sorting.

Definition is_ascii_digit (a : ascii) : bool :=
  let n := Z.of_nat (nat_of_ascii a) in bool_decide (48 ≤ n ≤ 57).

Fixpoint all_digits (s : string) : bool :=
  match s with
  | EmptyString => true
  | String a s' => is_ascii_digit a && all_digits s'
  end.

(** [str.isdigit()] on an ASCII string: non-empty and digits only. *)
Definition isdigit (s : string) : bool :=
  match s with
  | EmptyString => false
  | _ => all_digits s
  end.

Fixpoint int_of_digits (acc : Z) (s : string) : Z :=
  match s with
  | EmptyString => acc
  | String a s' => int_of_digits (10 * acc + (Z.of_nat (nat_of_ascii a) - 48)) s'
  end.

(** The sort key of [Character.__init__]:
    [int(k) if isinstance(k, (int, str)) and str(k).isdigit() else 0].
    [str(n)] of an integer is all digits exactly when [n] is not negative.
    This is the key Python computes on the keys that [plain_key] describes;
    the statements about the order of the decisions are made for those. *)
Definition decision_sort_key (k : dkey) : Z :=
  match k with
  | KInt n => if bool_decide (0 ≤ n) then n else 0
  | KStr s => if isdigit s then int_of_digits 0 s else 0
  end.

(** [all_ascii] and [plain_key]: the keys on which [int], [str] and
    [str.isdigit] do what [decision_sort_key] says: an integer of at most
    4300 digits, or a string of at most 4300 characters, all of them ASCII.
    Outside ASCII
    [str.isdigit] accepts further digits, on which [int] gives their value
    or raises [ValueError]; past 4300 digits the conversions between [int]
    and [str] raise [ValueError]. *)
Fixpoint all_ascii (s : string) : bool :=
  match s with
  | EmptyString => true
  | String a s' => bool_decide (nat_of_ascii a < 128)%nat && all_ascii s'
  end.

Definition plain_key (k : dkey) : Prop :=
  match k with
  | KInt n => - 10 ^ 4300 < n < 10 ^ 4300
  | KStr s => (String.length s ≤ 4300)%nat ∧ all_ascii s = true
  end.

Section Sorted.
Context {A : Type} (key : A → Z).

(** Insertion in front of the first element whose key is not smaller:
    equal keys keep their original order, as in Python's stable sort. *)
Fixpoint insert_sorted (x : A) (l : list A) : list A :=
  match l with
  | [] => [x]
  | y :: l' =>
      if bool_decide (key x ≤ key y) then x :: y :: l'
      else y :: insert_sorted x l'
  end.

Definition sorted (l : list A) : list A := foldr insert_sorted [] l.

End Sorted.

End Sorting.

(** ** class Character *)

Module Character.

Record t := mk {
  id : string;
  name : string;
  title : string;
  starting_year : Z;
  initial_capital : Z;
  key_principles : list string;
  decisions : list (dkey * Decision);
  analysis_templates : gmap string Template;
  sorted_decisions : list (dkey * Decision)
}.

(** [Character.__init__].  On plain keys the sort never raises; a string
    key that [str.isdigit] accepts and [int] rejects makes the constructor
    raise [ValueError], which is outside this embedding. *)
Definition init (character_id : string) (data : CharacterData) : t :=
  let decisions := get_or (cd_decisions data) [] in
  {| id := character_id;
     name := get_or (cd_name data) "Unknown"%string;
     title := get_or (cd_title data) ""%string;
     starting_year := get_or (cd_starting_year data) 0;
     initial_capital := get_or (cd_initial_capital data) 0;
     key_principles := get_or (cd_key_principles data) [];
     decisions := decisions;
     analysis_templates := get_or (cd_analysis_templates data) ∅;
     sorted_decisions :=
       Sorting.sorted (λ x, Sorting.decision_sort_key (fst x)) decisions |}.

Definition get_total_decisions (c : t) : Z :=
  Z.of_nat (length (sorted_decisions c)).

Definition get_decision (c : t) (number : Z) : option Decision :=
  if bool_decide (number ≤ 0 ∨ number > Z.of_nat (length (sorted_decisions c)))
  then None
  else snd <$> sorted_decisions c !! Z.to_nat (number - 1).

Definition get_choice_score (c : t) (decision_number : Z) (choice : string) : Z :=
  match get_decision c decision_number with
  | None => 0
  | Some decision =>
      match d_choices decision with
      | None => 0
      | Some choices =>
          match choices !! choice with
          | Some choice_data =>
              match choice_score choice_data with
              | Some score => score
              | None => 0
              end
          | None => 0
          end
      end
  end.

Definition is_correct_choice (c : t) (decision_number : Z) (choice : string) : bool :=
  match get_decision c decision_number with
  | None => false
  | Some decision =>
      match d_correct_choice decision with
      | None => false
      | Some correct => bool_decide (correct = choice)
      end
  end.

Definition default_excellent : Template :=
  mkTemplate (Some "Excellent performance!"%string) (Some []).
Definition default_good : Template :=
  mkTemplate (Some "Good performance!"%string) (Some []).
Definition default_needs_improvement : Template :=
  mkTemplate (Some "Needs improvement."%string) (Some []).

Definition get_analysis (c : t) (score_percentage : Qc) : Template :=
  if bool_decide (Qc_of_Z 80 ≤ score_percentage)%Qc then
    default default_excellent (analysis_templates c !! "excellent"%string)
  else if bool_decide (Qc_of_Z 60 ≤ score_percentage)%Qc then
    default default_good (analysis_templates c !! "good"%string)
  else
    default default_needs_improvement
            (analysis_templates c !! "needs_improvement"%string).

End Character.

(** ** class GameSession *)

Module GameSession.

Record t := mk {
  id : nat;
  user_id : Z;
  character : Character.t;
  game_id : Z;
  channel_id : Z;
  current_decision : Z;
  total_score : Z;
  decisions_made : gmap Z string;
  last_activity : Z;
  message_id : option Z
}.

(** The result of [get_analysis]. *)
Record Analysis := mkAnalysis {
  a_text : string;
  a_principles : list string;
  a_score : Z;
  a_max_score : Z;
  a_percentage : Qc;
  a_correct_decisions : Z;
  a_total_decisions : Z;
  a_accuracy : Qc
}.

(** [GameSession.__init__]; [uuid] is the value of [str(uuid.uuid4())] and
    [now] that of [datetime.now()]. *)
Definition init (uuid : nat) (user_id : Z) (character : Character.t)
    (game_id channel_id : Z) (now : Z) : t :=
  {| id := uuid; user_id := user_id; character := character;
     game_id := game_id; channel_id := channel_id;
     current_decision := 1; total_score := 0; decisions_made := ∅;
     last_activity := now; message_id := None |}.

(** The session after the call, and the returned score. *)
Definition make_decision (s : t) (decision_number : Z) (choice : string)
    (now : Z) : t * Z :=
  if bool_decide (decision_number ≠ current_decision s) then (s, 0)
  else
    let score := Character.get_choice_score (character s) decision_number choice in
    ({| id := id s; user_id := user_id s; character := character s;
        game_id := game_id s; channel_id := channel_id s;
        current_decision := current_decision s + 1;
        total_score := total_score s + score;
        decisions_made := <[decision_number := choice]> (decisions_made s);
        last_activity := now; message_id := message_id s |}, score).

Definition is_completed (s : t) : bool :=
  bool_decide (current_decision s > Character.get_total_decisions (character s)).

(** The inner loop of [get_max_possible_score] over [choices.items()]. *)
Definition highest_score (choices : gmap string ChoiceData) : Z :=
  map_fold (λ _ choice_data highest,
              match choice_score choice_data with
              | Some score => if bool_decide (score > highest) then score else highest
              | None => highest
              end) 0 choices.

Definition get_max_possible_score (s : t) : Z :=
  foldl (λ max_score i,
           match Character.get_decision (character s) i with
           | Some decision =>
               match d_choices decision with
               | Some choices => max_score + highest_score choices
               | None => max_score
               end
           | None => max_score
           end)
        0 (seqZ 1 (Character.get_total_decisions (character s))).

Definition get_score_percentage (s : t) : Qc :=
  let max_score := get_max_possible_score s in
  if bool_decide (max_score = 0) then Qc_of_Z 0
  else (Qc_of_Z (total_score s) / Qc_of_Z max_score * Qc_of_Z 100)%Qc.

(** The loop of [get_analysis] over [decisions_made.items()]. *)
Definition count_correct (c : Character.t) (made : gmap Z string) : Z :=
  map_fold (λ decision_num choice correct_decisions,
              if Character.is_correct_choice c decision_num choice
              then correct_decisions + 1 else correct_decisions) 0 made.

Definition get_analysis (s : t) : Analysis :=
  let score_percentage := get_score_percentage s in
  let analysis_template := Character.get_analysis (character s) score_percentage in
  let correct_decisions := count_correct (character s) (decisions_made s) in
  let total_decisions := Character.get_total_decisions (character s) in
  let accuracy :=
    if bool_decide (total_decisions > 0)
    then (Qc_of_Z correct_decisions / Qc_of_Z total_decisions * Qc_of_Z 100)%Qc
    else Qc_of_Z 0 in
  {| a_text := get_or (tpl_text analysis_template) ""%string;
     a_principles := get_or (tpl_principles analysis_template) [];
     a_score := total_score s;
     a_max_score := get_max_possible_score s;
     a_percentage := score_percentage;
     a_correct_decisions := correct_decisions;
     a_total_decisions := total_decisions;
     a_accuracy := accuracy |}.

Definition update_activity (s : t) (now : Z) : t :=
  {| id := id s; user_id := user_id s; character := character s;
     game_id := game_id s; channel_id := channel_id s;
     current_decision := current_decision s; total_score := total_score s;
     decisions_made := decisions_made s;
     last_activity := now; message_id := message_id s |}.

End GameSession.

(** ** class Database, as the game manager uses it

    The game manager only calls the database cog and reads back nothing but
    the id that [create_game] returns.  The cog is therefore the trace of the
    calls it received, newest first, and the AUTOINCREMENT counter of the
    [games] table. *)

Module Database.

Inductive call :=
| GetOrCreateUser (user_id : Z) (username : string)
| CreateGame (user_id : Z) (character_id : string) (game_id : Z)
| CreateSession (session_id : nat) (user_id game_id channel_id : Z)
| UpdateSessionActivity (session_id : nat)
| EndSession (session_id : nat)
| RecordDecision (game_id decision_number : Z) (choice : string) (score : Z)
| CompleteGame (game_id : Z)
| RecordFeedback (game_id rating : Z) (comments : option string).

Record t := mk {
  next_game_id : Z;
  calls : list call
}.

Definition record (c : call) (db : t) : t :=
  {| next_game_id := next_game_id db; calls := c :: calls db |}.

Definition get_or_create_user (user_id : Z) (username : string) (db : t) : t :=
  record (GetOrCreateUser user_id username) db.

(** The new row's id is [cursor.lastrowid]. *)
Definition create_game (user_id : Z) (character_id : string) (db : t) : t * Z :=
  let game_id := next_game_id db in
  ({| next_game_id := game_id + 1;
      calls := CreateGame user_id character_id game_id :: calls db |}, game_id).

Definition create_session (session_id : nat) (user_id game_id channel_id : Z)
    (db : t) : t :=
  record (CreateSession session_id user_id game_id channel_id) db.

Definition update_session_activity (session_id : nat) (db : t) : t :=
  record (UpdateSessionActivity session_id) db.

Definition end_session (session_id : nat) (db : t) : t :=
  record (EndSession session_id) db.

Definition record_decision (game_id decision_number : Z) (choice : string)
    (score : Z) (db : t) : t :=
  record (RecordDecision game_id decision_number choice score) db.

Definition complete_game (game_id : Z) (db : t) : t :=
  record (CompleteGame game_id) db.

Definition record_feedback (game_id rating : Z) (comments : option string)
    (db : t) : t :=
  record (RecordFeedback game_id rating comments) db.

End Database.

(** ** class GameManager

    The state is the two dictionaries of the cog together with what the cog
    reaches through [self.bot]: the Database and CharacterLoader cogs
    ([None] when [bot.get_cog] finds none), the user cache behind
    [bot.get_user], the source of uuids, and the direct messages the bot has
    tried to send. *)

Module GameManager.

Record t := mk {
  active_sessions : gmap nat GameSession.t;
  user_sessions : gmap Z nat;
  database : option Database.t;
  character_loader : option (gmap string Character.t);
  users : gmap Z string;
  next_uuid : nat;
  sent : list (Z * string)
}.

Definition set_sessions (a : gmap nat GameSession.t) (u : gmap Z nat) (w : t) : t :=
  {| active_sessions := a; user_sessions := u; database := database w;
     character_loader := character_loader w; users := users w;
     next_uuid := next_uuid w; sent := sent w |}.

Definition set_database (db : Database.t) (w : t) : t :=
  {| active_sessions := active_sessions w; user_sessions := user_sessions w;
     database := Some db; character_loader := character_loader w;
     users := users w; next_uuid := next_uuid w; sent := sent w |}.

Definition draw_uuid (w : t) : t * nat :=
  ({| active_sessions := active_sessions w; user_sessions := user_sessions w;
      database := database w; character_loader := character_loader w;
      users := users w; next_uuid := S (next_uuid w); sent := sent w |},
   next_uuid w).

(** [await user.send(text)]: the attempt is recorded whether or not the
    delivery raises [Forbidden], which the caller swallows. *)
Definition send (user_id : Z) (text : string) (w : t) : t :=
  {| active_sessions := active_sessions w; user_sessions := user_sessions w;
     database := database w; character_loader := character_loader w;
     users := users w; next_uuid := next_uuid w;
     sent := (user_id, text) :: sent w |}.

(** [GameManager.__init__] in a given bot. *)
Definition init (database : option Database.t)
    (character_loader : option (gmap string Character.t))
    (users : gmap Z string) (next_uuid : nat) : t :=
  {| active_sessions := ∅; user_sessions := ∅; database := database;
     character_loader := character_loader; users := users;
     next_uuid := next_uuid; sent := [] |}.

Definition end_game_session (session_id : nat) (completed : bool) (w : t) : t :=
  match active_sessions w !! session_id with
  | None => w
  | Some session =>
      match database w with
      | None => w
      | Some db =>
          let db :=
            if completed && negb (GameSession.is_completed session)
            then Database.complete_game (GameSession.game_id session) db
            else db in
          let db := Database.end_session session_id db in
          let user_sessions :=
            if bool_decide (user_sessions w !! GameSession.user_id session
                            = Some session_id)
            then delete (GameSession.user_id session) (user_sessions w)
            else user_sessions w in
          set_database db
            (set_sessions (delete session_id (active_sessions w)) user_sessions w)
      end
  end.

Definition create_game_session (user_id : Z) (character_id : string)
    (channel_id : Z) (now : Z) (w : t) : t * option GameSession.t :=
  match character_loader w with
  | None => (w, None)
  | Some characters =>
      match characters !! character_id with
      | None => (w, None)
      | Some character =>
          match database w with
          | None => (w, None)
          | Some db =>
              let username := default "Unknown"%string (users w !! user_id) in
              let db := Database.get_or_create_user user_id username db in
              let '(db, game_id) := Database.create_game user_id character_id db in
              let w := set_database db w in
              let '(w, uuid) := draw_uuid w in
              let session :=
                GameSession.init uuid user_id character game_id channel_id now in
              let w := set_sessions (<[uuid := session]> (active_sessions w))
                                    (user_sessions w) w in
              let w :=
                match user_sessions w !! user_id with
                | Some old_session_id =>
                    if bool_decide (is_Some (active_sessions w !! old_session_id))
                    then end_game_session old_session_id false w
                    else w
                | None => w
                end in
              let w := set_sessions (active_sessions w)
                                    (<[user_id := uuid]> (user_sessions w)) w in
              let w :=
                match database w with
                | Some db =>
                    set_database
                      (Database.create_session uuid user_id game_id channel_id db) w
                | None => w
                end in
              (w, Some session)
          end
      end
  end.

Definition get_user_session (user_id : Z) (w : t) : t * option GameSession.t :=
  match user_sessions w !! user_id with
  | None => (w, None)
  | Some session_id =>
      match active_sessions w !! session_id with
      | None =>
          (set_sessions (active_sessions w) (delete user_id (user_sessions w)) w,
           None)
      | Some session => (w, Some session)
      end
  end.

Definition make_decision (session_id : nat) (choice : string) (now : Z)
    (w : t) : t * (Z * bool) :=
  match active_sessions w !! session_id with
  | None => (w, (0, false))
  | Some session =>
      match database w with
      | None => (w, (0, false))
      | Some db =>
          let '(session, score) :=
            GameSession.make_decision session
              (GameSession.current_decision session - 1) choice now in
          let db :=
            Database.record_decision (GameSession.game_id session)
              (GameSession.current_decision session - 1) choice score db in
          let db := Database.update_session_activity session_id db in
          let is_completed := GameSession.is_completed session in
          let db :=
            if is_completed
            then Database.complete_game (GameSession.game_id session) db
            else db in
          (set_database db
             (set_sessions (<[session_id := session]> (active_sessions w))
                           (user_sessions w) w),
           (score, is_completed))
      end
  end.

Definition record_feedback (session_id : nat) (rating : Z)
    (comments : option string) (w : t) : t * bool :=
  match active_sessions w !! session_id with
  | None => (w, false)
  | Some session =>
      match database w with
      | None => (w, false)
      | Some db =>
          (set_database
             (Database.record_feedback (GameSession.game_id session) rating
                                       comments db) w,
           true)
      end
  end.

Definition expiry_notice : string :=
  "Your game session has expired due to inactivity. You can start a new game anytime!".

(** [(now - session.last_activity).total_seconds() > config.GAME_TIMEOUT],
    on microsecond timestamps. *)
Definition timed_out (now : Z) (session : GameSession.t) : bool :=
  bool_decide (now - GameSession.last_activity session
               > Config.GAME_TIMEOUT * 1000000).

Definition sessions_to_remove (now : Z) (w : t) : list nat :=
  fst <$> filter (λ kv, timed_out now (snd kv) = true)
                 (map_to_list (active_sessions w)).

(** One round of the second loop of [cleanup_old_sessions]. *)
Definition cleanup_one (w : t) (session_id : nat) : t :=
  let w := end_game_session session_id false w in
  match active_sessions w !! session_id with
  | Some session =>
      match users w !! GameSession.user_id session with
      | Some _ => send (GameSession.user_id session) expiry_notice w
      | None => w
      end
  | None => w
  end.

(** The sessions are visited in the order of [map_to_list]; Python visits
    them in insertion order. *)
Definition cleanup_old_sessions (now : Z) (w : t) : t :=
  foldl cleanup_one w (sessions_to_remove now w).

End GameManager.

(** ** class CharacterLoader *)

Module CharacterLoader.

Inductive level := ERROR | WARNING.

(** The messages of [_validate_character]. *)
Inductive message :=
| MissingField (field : string)
| NoDecisions
| DecisionMissingField (decision_id : dkey) (field : string)
| NoChoices (decision_id : dkey)
| InvalidCorrectChoice (decision_id : dkey) (correct_choice : option string)
| NoAnalysisTemplates.

Definition present {A} (field : option A) : bool :=
  match field with Some _ => true | None => false end.

(** [field in data] for the top-level mapping. *)
Definition data_has (data : CharacterData) (field : string) : bool :=
  if String.eqb field "name" then present (cd_name data)
  else if String.eqb field "title" then present (cd_title data)
  else if String.eqb field "starting_year" then present (cd_starting_year data)
  else if String.eqb field "initial_capital" then present (cd_initial_capital data)
  else if String.eqb field "key_principles" then present (cd_key_principles data)
  else if String.eqb field "decisions" then present (cd_decisions data)
  else if String.eqb field "analysis_templates"
       then present (cd_analysis_templates data)
  else false.

(** [field in decision] for one decision. *)
Definition decision_has (decision : Decision) (field : string) : bool :=
  if String.eqb field "year" then present (d_year decision)
  else if String.eqb field "context" then present (d_context decision)
  else if String.eqb field "question" then present (d_question decision)
  else if String.eqb field "choices" then present (d_choices decision)
  else if String.eqb field "correct_choice" then present (d_correct_choice decision)
  else if String.eqb field "historical_context"
       then present (d_historical_context decision)
  else false.

(** [not choices] *)
Definition no_choices (choices : gmap string ChoiceData) : bool :=
  bool_decide (size choices = 0%nat).

(** The body of the loop over [decisions.items()]: the error it stops at. *)
Definition check_decision (decision_id : dkey) (decision : Decision)
    : option message :=
  match find (λ field, negb (decision_has decision field))
             Config.REQUIRED_DECISION_FIELDS with
  | Some field => Some (DecisionMissingField decision_id field)
  | None =>
      let choices := get_or (d_choices decision) ∅ in
      if no_choices choices then Some (NoChoices decision_id)
      else
        match d_correct_choice decision with
        | Some correct_choice =>
            if bool_decide (is_Some (choices !! correct_choice)) then None
            else Some (InvalidCorrectChoice decision_id (Some correct_choice))
        | None => Some (InvalidCorrectChoice decision_id None)
        end
  end.

Fixpoint check_decisions (decisions : list (dkey * Decision)) : option message :=
  match decisions with
  | [] => None
  | (decision_id, decision) :: rest =>
      match check_decision decision_id decision with
      | Some err => Some err
      | None => check_decisions rest
      end
  end.

(** The verdict, and the log lines written on the way. *)
Definition _validate_character (character_id : string) (data : CharacterData)
    : bool * list (level * message) :=
  match find (λ field, negb (data_has data field))
             Config.REQUIRED_CHARACTER_FIELDS with
  | Some field => (false, [(ERROR, MissingField field)])
  | None =>
      match get_or (cd_decisions data) [] with
      | [] => (false, [(ERROR, NoDecisions)])
      | decisions =>
          match check_decisions decisions with
          | Some err => (false, [(ERROR, err)])
          | None =>
              let analysis_templates := get_or (cd_analysis_templates data) ∅ in
              if bool_decide (size analysis_templates = 0%nat)
              then (true, [(WARNING, NoAnalysisTemplates)])
              else (true, [])
          end
      end
  end.

(** One round of the loop of [_load_all_characters].  A file is given by its
    character id and by what [yaml.safe_load] returned; [None] stands for a
    file whose reading or parsing raised, which the loop catches.  The loop
    catches a raising [Character(...)] as well and skips that file; with
    plain decision keys the constructor does not raise. *)
Definition load_file (characters : gmap string Character.t)
    (file : string * option CharacterData) : gmap string Character.t :=
  match snd file with
  | Some data =>
      if fst (_validate_character (fst file) data)
      then <[fst file := Character.init (fst file) data]> characters
      else characters
  | None => characters
  end.

(** [files] is the listing of the characters directory restricted to the
    [.yml] and [.yaml] files, [None] when [os.listdir] raises
    [FileNotFoundError]. *)
Definition _load_all_characters
    (files : option (list (string * option CharacterData)))
    : gmap string Character.t :=
  match files with
  | None => ∅
  | Some files => foldl load_file ∅ files
  end.

Definition get_character (characters : gmap string Character.t)
    (character_id : string) : option Character.t :=
  characters !! character_id.


End CharacterLoader.

(** ** The engine as a transition system *)

Module Engine.

(** How a call ends for its caller: with a returned value, or with one of
    the failures of the specification's taxonomy. *)
Inductive Failure :=
| CharacterNotFound
| SessionNotFound
| ValidationError
| DependencyUnavailable.

Inductive completion (A : Type) :=
| Returned (a : A)
| Failed (f : Failure).
Arguments Returned {A} a.
Arguments Failed {A} f.

(** [advance] and [endSession] are [GameManager.make_decision] and
    [GameManager.end_game_session].  Neither contains a [raise], and no call
    they make raises in this model: every call returns. *)
Definition advance (session_id : nat) (choice : string) (now : Z)
    (w : GameManager.t) : GameManager.t * completion (Z * bool) :=
  let '(w, result) := GameManager.make_decision session_id choice now w in
  (w, Returned result).

Definition endSession (session_id : nat) (completed : bool)
    (w : GameManager.t) : GameManager.t * completion unit :=
  (GameManager.end_game_session session_id completed w, Returned ()).

(** The calls the presentation layer and the task loop make on the cog. *)
Inductive op :=
| Start (user_id : Z) (character_id : string) (channel_id : Z) (now : Z)
| Lookup (user_id : Z)
| Advance (session_id : nat) (choice : string) (now : Z)
| End (session_id : nat) (completed : bool)
| Feedback (session_id : nat) (rating : Z) (comments : option string)
| Reap (now : Z).

Definition run (w : GameManager.t) (o : op) : GameManager.t :=
  match o with
  | Start user_id character_id channel_id now =>
      fst (GameManager.create_game_session user_id character_id channel_id now w)
  | Lookup user_id => fst (GameManager.get_user_session user_id w)
  | Advance session_id choice now =>
      fst (GameManager.make_decision session_id choice now w)
  | End session_id completed =>
      GameManager.end_game_session session_id completed w
  | Feedback session_id rating comments =>
      fst (GameManager.record_feedback session_id rating comments w)
  | Reap now => GameManager.cleanup_old_sessions now w
  end.

(** The states of a freshly constructed cog, in any bot, and the states the
    calls lead to from there. *)
Inductive reachable : GameManager.t → Prop :=
| reachable_init database character_loader users next_uuid :
    reachable (GameManager.init database character_loader users next_uuid)
| reachable_run w o : reachable w → reachable (run w o).

(** Every live session is filed under its own id, which has been drawn
    already, and is the session registered for its user; every registered
    id is that of a live session of that user. *)
Definition consistent (w : GameManager.t) : Prop :=
  (∀ session_id session,
     GameManager.active_sessions w !! session_id = Some session →
     GameSession.id session = session_id
     ∧ (session_id < GameManager.next_uuid w)%nat
     ∧ GameManager.user_sessions w !! GameSession.user_id session
       = Some session_id)
  ∧ (∀ user_id session_id,
       GameManager.user_sessions w !! user_id = Some session_id →
       ∃ session,
         GameManager.active_sessions w !! session_id = Some session
         ∧ GameSession.user_id session = user_id).

(** Every live session is still at its first decision. *)
Definition at_first_decision (w : GameManager.t) : Prop :=
  ∀ session_id session,
    GameManager.active_sessions w !! session_id = Some session →
    GameSession.current_decision session = 1.

(** Every live session has a game of its own in the database: its game id
    was handed out by [create_game], and no other live session has it. *)
Definition games_ok (w : GameManager.t) : Prop :=
  (∀ session_id session,
     GameManager.active_sessions w !! session_id = Some session →
     ∃ db,
       GameManager.database w = Some db
       ∧ GameSession.game_id session < Database.next_game_id db)
  ∧ (∀ id1 session1 id2 session2,
       GameManager.active_sessions w !! id1 = Some session1 →
       GameManager.active_sessions w !! id2 = Some session2 →
       GameSession.game_id session1 = GameSession.game_id session2 →
       id1 = id2).






End Engine.

(** ** The scenario of the specification: character "Alice" *)

Module Scenario.

Definition choice (score : Z) : ChoiceData :=
  mkChoice (Some "text"%string) (Some score) None.

Definition decision_1 : Decision :=
  mkDecision (Some 1990) (Some "context"%string) (Some "question"%string)
    (Some (<["a"%string := choice 10]> (<["b"%string := choice 4]> ∅)))
    (Some "a"%string) None.

Definition decision_2 : Decision :=
  mkDecision (Some 1995) (Some "context"%string) (Some "question"%string)
    (Some (<["a"%string := choice 5]> (<["b"%string := choice 20]> ∅)))
    (Some "b"%string) None.

Definition alice_data : CharacterData :=
  mkData (Some "Alice"%string) (Some "Investor"%string) (Some 1990)
    (Some 1000) (Some []) (Some [(KInt 1, decision_1); (KInt 2, decision_2)])
    (Some ∅).

Definition characters : gmap string Character.t :=
  CharacterLoader._load_all_characters (Some [("alice"%string, Some alice_data)]).

Definition alice : Character.t := Character.init "alice" alice_data.

(** A bot with both cogs loaded, nobody in the user cache but user 7. *)
Definition w0 : GameManager.t :=
  GameManager.init (Some (Database.mk 1 [])) (Some characters)
                   (<[7 := "player"%string]> ∅) 0.

(** User 7 starts a game as Alice at time 0. *)
Definition started : GameManager.t :=
  fst (GameManager.create_game_session 7 "alice" 100 0 w0).

(** The session of [started] once both decisions have been answered by the
    session's own [make_decision], "a" then "b". *)
Definition played : GameSession.t :=
  let s0 := GameSession.init 0 7 alice 1 100 0 in
  let s1 := fst (GameSession.make_decision s0 1 "a" 1) in
  fst (GameSession.make_decision s1 2 "b" 2).

(** User 8 starts a game as well, 200 seconds after user 7. *)
Definition two_players : GameManager.t :=
  fst (GameManager.create_game_session 8 "alice" 100 200000000 started).

(** User 7 starts a second game, 50 microseconds after the first. *)
Definition two_players_same_user : GameManager.t :=
  fst (GameManager.create_game_session 7 "alice" 100 50 started).

(** Alice's file without the [analysis_templates] key. *)
Definition alice_without_templates : CharacterData :=
  mkData (Some "Alice"%string) (Some "Investor"%string) (Some 1990)
    (Some 1000) (Some []) (Some [(KInt 1, decision_1); (KInt 2, decision_2)])
    None.

(** A character whose only decision has losing choices only. *)
Definition bear_decision : Decision :=
  mkDecision (Some 2008) (Some "context"%string) (Some "question"%string)
    (Some (<["a"%string := choice (-5)]> (<["b"%string := choice (-2)]> ∅)))
    (Some "b"%string) None.

Definition bear_data : CharacterData :=
  mkData (Some "Bear"%string) (Some "Trader"%string) (Some 2008)
    (Some 1000) (Some []) (Some [(KInt 1, bear_decision)]) (Some ∅).

Definition bear : Character.t := Character.init "bear" bear_data.

End Scenario.

(** ** The validation rules in the words of the specification *)

Module Spec.

(** All required top-level fields are present. *)
Definition top_level_fields_present (data : CharacterData) : Prop :=
  is_Some (cd_name data) ∧ is_Some (cd_title data)
  ∧ is_Some (cd_starting_year data) ∧ is_Some (cd_initial_capital data)
  ∧ is_Some (cd_key_principles data) ∧ is_Some (cd_decisions data)
  ∧ is_Some (cd_analysis_templates data).

(** A decision has year, context, question, choices and correct_choice, its
    choices mapping is not empty and its correct_choice is one of its keys. *)
Definition decision_ok (decision : Decision) : Prop :=
  is_Some (d_year decision) ∧ is_Some (d_context decision)
  ∧ is_Some (d_question decision)
  ∧ ∃ choices correct_choice,
      d_choices decision = Some choices
      ∧ d_correct_choice decision = Some correct_choice
      ∧ choices ≠ ∅
      ∧ is_Some (choices !! correct_choice).

Definition acceptable (data : CharacterData) : Prop :=
  top_level_fields_present data
  ∧ ∃ decisions,
      cd_decisions data = Some decisions
      ∧ decisions ≠ []
      ∧ Forall (λ kd, decision_ok (snd kd)) decisions.

(** A file that [_load_all_characters] leaves out. *)
Definition rejected (file : string * option CharacterData) : Prop :=
  match snd file with
  | Some data => fst (CharacterLoader._validate_character (fst file) data) = false
  | None => True
  end.

End Spec.

(** ** A session object driven by its own methods *)

Module Play.

(** The states of a [GameSession] of character [c] that calls of
    [make_decision], with any decision number, and of [update_activity]
    lead to from a fresh session. *)
Inductive played (c : Character.t) : GameSession.t → Prop :=
| played_init uuid user_id game_id channel_id now :
    played c (GameSession.init uuid user_id c game_id channel_id now)
| played_make_decision s decision_number choice now :
    played c s →
    played c (fst (GameSession.make_decision s decision_number choice now))
| played_update_activity s now :
    played c s → played c (GameSession.update_activity s now).

(** The scores [get_choice_score] gives for the recorded choices, added up. *)
Definition recorded_score (c : Character.t) (made : gmap Z string) : Z :=
  map_fold (λ decision_number choice total,
              total + Character.get_choice_score c decision_number choice)
           0 made.

(** What one decision adds to [get_max_possible_score]. *)
Definition best_score (decision : Decision) : Z :=
  match d_choices decision with
  | Some choices => GameSession.highest_score choices
  | None => 0
  end.

(** The same for decision number [i] of character [c]; 0 when there is no
    such decision. *)
Definition best_at (c : Character.t) (i : Z) : Z :=
  match Character.get_decision c i with
  | Some decision => best_score decision
  | None => 0
  end.

End Play.

(** ** utils/yaml_parser.py *)

Module YamlParser.

(** [validate_character_data]: the verdict. *)
Definition validate_character_data (character_id : string)
    (data : CharacterData) : bool :=
  match find (λ field, negb (CharacterLoader.data_has data field))
             Config.REQUIRED_CHARACTER_FIELDS with
  | Some _ => false
  | None =>
      match get_or (cd_decisions data) [] with
      | [] => false
      | decisions =>
          match CharacterLoader.check_decisions decisions with
          | Some _ => false
          | None => true
          end
      end
  end.

End YamlParser.

(** ** utils/session_manager.py *)

Module SessionManager.

(** A session dictionary, with data of any type [D]. *)
Record session (D : Type) := mkSession {
  id : nat;
  user_id : Z;
  data : D;
  created_at : Z;
  last_activity : Z
}.
Arguments mkSession {D} _ _ _ _ _.
Arguments id {D} _.
Arguments user_id {D} _.
Arguments data {D} _.
Arguments created_at {D} _.
Arguments last_activity {D} _.

(** The two dictionaries of the manager, and the source of uuids. *)
Record t (D : Type) := mk {
  active_sessions : gmap nat (session D);
  user_sessions : gmap Z nat;
  next_uuid : nat
}.
Arguments mk {D} _ _ _.
Arguments active_sessions {D} _.
Arguments user_sessions {D} _.
Arguments next_uuid {D} _.

(** [SessionManager.__init__] *)
Definition init {D} (next_uuid : nat) : t D :=
  {| active_sessions := ∅; user_sessions := ∅; next_uuid := next_uuid |}.

Definition end_session {D} (session_id : nat) (m : t D) : t D * bool :=
  match active_sessions m !! session_id with
  | None => (m, false)
  | Some session =>
      let user_sessions :=
        if bool_decide (user_sessions m !! user_id session = Some session_id)
        then delete (user_id session) (user_sessions m)
        else user_sessions m in
      ({| active_sessions := delete session_id (active_sessions m);
          user_sessions := user_sessions;
          next_uuid := next_uuid m |}, true)
  end.

(** [created] and [now] are the two readings of the clock that fill
    [created_at] and [last_activity]. *)
Definition create_session {D} (user_id : Z) (data : D) (created now : Z)
    (m : t D) : t D * nat :=
  let session_id := next_uuid m in
  let session := mkSession session_id user_id data created now in
  let m := {| active_sessions := <[session_id := session]> (active_sessions m);
              user_sessions := user_sessions m;
              next_uuid := S (next_uuid m) |} in
  let m :=
    match user_sessions m !! user_id with
    | Some old_session_id =>
        if bool_decide (is_Some (active_sessions m !! old_session_id))
        then fst (end_session old_session_id m)
        else m
    | None => m
    end in
  ({| active_sessions := active_sessions m;
      user_sessions := <[user_id := session_id]> (user_sessions m);
      next_uuid := next_uuid m |}, session_id).

Definition get_session {D} (session_id : nat) (m : t D) : option (session D) :=
  active_sessions m !! session_id.

Definition get_user_session {D} (user_id : Z) (m : t D)
    : t D * option (session D) :=
  match user_sessions m !! user_id with
  | None => (m, None)
  | Some session_id =>
      match active_sessions m !! session_id with
      | None =>
          ({| active_sessions := active_sessions m;
              user_sessions := delete user_id (user_sessions m);
              next_uuid := next_uuid m |}, None)
      | Some session => (m, Some session)
      end
  end.

Definition update_session_activity {D} (session_id : nat) (now : Z) (m : t D)
    : t D * bool :=
  match active_sessions m !! session_id with
  | None => (m, false)
  | Some session =>
      ({| active_sessions :=
            <[session_id := mkSession (id session) (user_id session)
                              (data session) (created_at session) now]>
              (active_sessions m);
          user_sessions := user_sessions m;
          next_uuid := next_uuid m |}, true)
  end.

Definition update_session_data {D} (session_id : nat) (new_data : D) (now : Z)
    (m : t D) : t D * bool :=
  match active_sessions m !! session_id with
  | None => (m, false)
  | Some session =>
      let m :=
        {| active_sessions :=
             <[session_id := mkSession (id session) (user_id session) new_data
                               (created_at session) (last_activity session)]>
               (active_sessions m);
           user_sessions := user_sessions m;
           next_uuid := next_uuid m |} in
      (fst (update_session_activity session_id now m), true)
  end.

(** [time_diff > timeout], with [timeout] in seconds and the timestamps in
    microseconds. *)
Definition inactive {D} (timeout : Z) (now : Z) (s : session D) : bool :=
  bool_decide (now - last_activity s > timeout * 1000000).

Definition get_inactive_sessions {D} (timeout : option Z) (now : Z) (m : t D)
    : list nat :=
  let timeout := default Config.GAME_TIMEOUT timeout in
  fst <$> filter (λ kv, inactive timeout now (snd kv) = true)
                 (map_to_list (active_sessions m)).

Definition cleanup_inactive_sessions {D} (timeout : option Z) (now : Z)
    (m : t D) : t D * Z :=
  let inactive_sessions := get_inactive_sessions timeout now m in
  (foldl (λ m session_id, fst (end_session session_id m)) m inactive_sessions,
   Z.of_nat (length inactive_sessions)).

Definition get_session_count {D} (m : t D) : Z :=
  Z.of_nat (size (active_sessions m)).

(** The calls a user of the class can make. *)
Inductive op (D : Type) :=
| Create (user_id : Z) (data : D) (created now : Z)
| GetUser (user_id : Z)
| Touch (session_id : nat) (now : Z)
| SetData (session_id : nat) (data : D) (now : Z)
| End (session_id : nat)
| Cleanup (timeout : option Z) (now : Z).
Arguments Create {D} _ _ _ _.
Arguments GetUser {D} _.
Arguments Touch {D} _ _.
Arguments SetData {D} _ _ _.
Arguments End {D} _.
Arguments Cleanup {D} _ _.

Definition run {D} (m : t D) (o : op D) : t D :=
  match o with
  | Create user_id data created now =>
      fst (create_session user_id data created now m)
  | GetUser user_id => fst (get_user_session user_id m)
  | Touch session_id now => fst (update_session_activity session_id now m)
  | SetData session_id data now =>
      fst (update_session_data session_id data now m)
  | End session_id => fst (end_session session_id m)
  | Cleanup timeout now => fst (cleanup_inactive_sessions timeout now m)
  end.

Inductive reachable {D} : t D → Prop :=
| reachable_init next_uuid : reachable (init next_uuid)
| reachable_run m o : reachable m → reachable (run m o).

(** Every live session is filed under its own id, drawn already, and is
    the one registered for its user; every registered id is that of a live
    session of that user. *)
Definition consistent {D} (m : t D) : Prop :=
  (∀ session_id session,
     active_sessions m !! session_id = Some session →
     id session = session_id
     ∧ (session_id < next_uuid m)%nat
     ∧ user_sessions m !! user_id session = Some session_id)
  ∧ (∀ user session_id,
       user_sessions m !! user = Some session_id →
       ∃ session,
         active_sessions m !! session_id = Some session
         ∧ user_id session = user).

End SessionManager.

(** ** cogs/feedback.py: FeedbackModal.on_submit *)

Module FeedbackModal.

(** The rating that is recorded; [parsed] is the value of
    [int(self.rating.value)], [None] when it raises. *)
Definition rating_value (parsed : option Z) : Z :=
  match parsed with
  | Some rating => Z.max 1 (Z.min 5 rating)
  | None => 3
  end.

(** [self.comments.value if self.comments.value else None] *)
Definition comments_value (text : option string) : option string :=
  match text with
  | Some EmptyString => None
  | Some text => Some text
  | None => None
  end.

(** The call of [record_feedback] that [on_submit] makes; the result tells
    which of the two messages the user gets. *)
Definition on_submit (session_id : nat) (parsed : option Z)
    (comments : option string) (w : GameManager.t) : GameManager.t * bool :=
  GameManager.record_feedback session_id (rating_value parsed)
                              (comments_value comments) w.

End FeedbackModal.

(** ** class Database, with its tables

    The SQL statements of [cogs/database.py] on tables that are finite maps
    from the primary key to the row ([users], [games], [active_sessions])
    or lists of rows in insertion order ([decisions], [feedback]).  An
    UPDATE or DELETE whose WHERE clause matches no row changes nothing; an
    INSERT that repeats a primary key raises.  Foreign keys are not
    enforced, as in SQLite's default.  [games_seq] is the largest game id
    handed out so far (the AUTOINCREMENT sequence of [games], whose rows
    only [create_game] inserts). *)

Module DatabaseTables.

(** The values an INTEGER column holds and a statement parameter may have:
    64-bit signed integers.  Outside this range [sqlite3] raises
    [OverflowError] on a parameter, and SQLite turns a sum into a REAL; the
    statements about scores are made for values and sums within it. *)
Definition int64 (z : Z) : Prop := - 2 ^ 63 ≤ z < 2 ^ 63.

Record UserRow := mkUser {
  username : string;
  games_played : Z;
  total_score : Z;
  last_played : Z
}.

Record GameRow := mkGame {
  g_user_id : Z;
  g_character_id : string;
  g_total_score : Z;
  g_timestamp : Z;
  g_completed : bool
}.

Record DecisionRow := mkDecisionRow {
  dr_game_id : Z;
  dr_decision_number : Z;
  dr_choice_made : string;
  dr_score : Z;
  dr_timestamp : Z
}.

Record FeedbackRow := mkFeedback {
  f_game_id : Z;
  f_rating : Z;
  f_comments : option string;
  f_timestamp : Z
}.

Record SessionRow := mkSessionRow {
  sr_user_id : Z;
  sr_game_id : Z;
  sr_channel_id : Z;
  sr_last_activity : Z
}.

Record t := mk {
  users : gmap Z UserRow;
  games : gmap Z GameRow;
  games_seq : Z;
  decisions : list DecisionRow;
  feedback : list FeedbackRow;
  active_sessions : gmap nat SessionRow
}.

(** The tables that [_create_tables] makes in a new file. *)
Definition empty : t :=
  {| users := ∅; games := ∅; games_seq := 0; decisions := [];
     feedback := []; active_sessions := ∅ |}.

Definition set_users (u : gmap Z UserRow) (db : t) : t :=
  {| users := u; games := games db; games_seq := games_seq db;
     decisions := decisions db; feedback := feedback db;
     active_sessions := active_sessions db |}.

Definition set_games (g : gmap Z GameRow) (seq : Z) (db : t) : t :=
  {| users := users db; games := g; games_seq := seq;
     decisions := decisions db; feedback := feedback db;
     active_sessions := active_sessions db |}.

Definition set_active_sessions (a : gmap nat SessionRow) (db : t) : t :=
  {| users := users db; games := games db; games_seq := games_seq db;
     decisions := decisions db; feedback := feedback db;
     active_sessions := a |}.

Definition _get_user (user_id : Z) (db : t) : option UserRow :=
  users db !! user_id.

(** [None]: the INSERT raised because the user exists. *)
Definition _create_user (user_id : Z) (username : string) (now : Z) (db : t)
    : option t :=
  match users db !! user_id with
  | Some _ => None
  | None => Some (set_users (<[user_id := mkUser username 0 0 now]> (users db)) db)
  end.

Definition get_or_create_user (user_id : Z) (username : string) (now : Z)
    (db : t) : t * option UserRow :=
  match _get_user user_id db with
  | Some user => (db, Some user)
  | None =>
      match _create_user user_id username now db with
      | Some db => (db, _get_user user_id db)
      | None => (db, None)
      end
  end.

Definition touch_user (now : Z) (u : UserRow) : UserRow :=
  mkUser (username u) (games_played u) (total_score u) now.

Definition count_game (u : UserRow) : UserRow :=
  mkUser (username u) (games_played u + 1) (total_score u) (last_played u).

Definition credit (score : Z) (u : UserRow) : UserRow :=
  mkUser (username u) (games_played u) (total_score u + score) (last_played u).

(** [played_at] and [created_at] are the two readings of the clock. *)
Definition create_game (user_id : Z) (character_id : string)
    (played_at created_at : Z) (db : t) : t * Z :=
  let db := set_users (alter (touch_user played_at) user_id (users db)) db in
  let game_id := games_seq db + 1 in
  let db :=
    set_games (<[game_id := mkGame user_id character_id 0 created_at false]>
                 (games db)) game_id db in
  (set_users (alter count_game user_id (users db)) db, game_id).

(** [false]: the INSERT raised because another row has the session id;
    the DELETE before it has been executed all the same. *)
Definition create_session (session_id : nat) (user_id game_id channel_id : Z)
    (now : Z) (db : t) : t * bool :=
  let others :=
    filter (λ kv, sr_user_id (snd kv) ≠ user_id) (active_sessions db) in
  match others !! session_id with
  | Some _ => (set_active_sessions others db, false)
  | None =>
      (set_active_sessions
         (<[session_id := mkSessionRow user_id game_id channel_id now]> others)
         db, true)
  end.

Definition update_session_activity (session_id : nat) (now : Z) (db : t) : t :=
  set_active_sessions
    (alter (λ r, mkSessionRow (sr_user_id r) (sr_game_id r) (sr_channel_id r) now)
           session_id (active_sessions db)) db.


Definition end_session (session_id : nat) (db : t) : t :=
  set_active_sessions (delete session_id (active_sessions db)) db.

Definition add_score (score : Z) (g : GameRow) : GameRow :=
  mkGame (g_user_id g) (g_character_id g) (g_total_score g + score)
         (g_timestamp g) (g_completed g).

(** [record_decision], on parameters and a resulting score that are 64-bit
    integers ([int64]). *)
Definition record_decision (game_id decision_number : Z) (choice : string)
    (score : Z) (now : Z) (db : t) : t :=
  {| users := users db;
     games := alter (add_score score) game_id (games db);
     games_seq := games_seq db;
     decisions :=
       decisions db
       ++ [mkDecisionRow game_id decision_number choice score now];
     feedback := feedback db;
     active_sessions := active_sessions db |}.

Definition mark_completed (g : GameRow) : GameRow :=
  mkGame (g_user_id g) (g_character_id g) (g_total_score g) (g_timestamp g) true.

(** [None]: no such game, and [game['total_score']] raised [TypeError]
    before any statement changed a table.  The credit is the sum SQLite
    computes while it is a 64-bit integer ([int64]). *)
Definition complete_game (game_id : Z) (db : t) : option (t * Z) :=
  match games db !! game_id with
  | None => None
  | Some game =>
      let total_score := g_total_score game in
      let db := set_games (alter mark_completed game_id (games db))
                          (games_seq db) db in
      Some (set_users (alter (credit total_score) (g_user_id game) (users db)) db,
            total_score)
  end.

Definition record_feedback (game_id rating : Z) (comments : option string)
    (now : Z) (db : t) : t :=
  {| users := users db; games := games db; games_seq := games_seq db;
     decisions := decisions db;
     feedback := feedback db ++ [mkFeedback game_id rating comments now];
     active_sessions := active_sessions db |}.

(** The scores of the decision rows of a game, added up. *)
Definition decision_sum (game_id : Z) (db : t) : Z :=
  foldr (λ row total,
           if bool_decide (dr_game_id row = game_id) then dr_score row + total
           else total) 0 (decisions db).

(** The calls on the cog that write. *)
Inductive op :=
| GetOrCreateUser (user_id : Z) (username : string) (now : Z)
| CreateGame (user_id : Z) (character_id : string) (played_at created_at : Z)
| CreateSession (session_id : nat) (user_id game_id channel_id : Z) (now : Z)
| UpdateSessionActivity (session_id : nat) (now : Z)
| EndSession (session_id : nat)
| RecordDecision (game_id decision_number : Z) (choice : string) (score : Z)
                 (now : Z)
| CompleteGame (game_id : Z)
| RecordFeedback (game_id rating : Z) (comments : option string) (now : Z).

(** The state after a call, also when the call raised. *)
Definition run (db : t) (o : op) : t :=
  match o with
  | GetOrCreateUser user_id username now =>
      fst (get_or_create_user user_id username now db)
  | CreateGame user_id character_id played_at created_at =>
      fst (create_game user_id character_id played_at created_at db)
  | CreateSession session_id user_id game_id channel_id now =>
      fst (create_session session_id user_id game_id channel_id now db)
  | UpdateSessionActivity session_id now =>
      update_session_activity session_id now db
  | EndSession session_id => end_session session_id db
  | RecordDecision game_id decision_number choice score now =>
      record_decision game_id decision_number choice score now db
  | CompleteGame game_id =>
      match complete_game game_id db with
      | Some (db, _) => db
      | None => db
      end
  | RecordFeedback game_id rating comments now =>
      record_feedback game_id rating comments now db
  end.

Inductive reachable : t → Prop :=
| reachable_empty : reachable empty
| reachable_run db o : reachable db → reachable (run db o).

(** The tables after user 7 has been registered and has started a game,
    and after a first decision worth 10 has been recorded for that game. *)
Definition new_game : t :=
  fst (create_game 7 "alice" 1 2 (fst (get_or_create_user 7 "player" 0 empty))).

Definition one_decision : t := record_decision 1 1 "a" 10 3 new_game.

End DatabaseTables.

(** * Properties *)

(** ** Sorting and the character accessors *)

Lemma insert_sorted_length {A} (key : A → Z) x l :
  length (Sorting.insert_sorted key x l) = S (length l).
Proof.
  induction l as [|y l IH]; simpl; [done|].
  case_bool_decide; simpl; [done|]. by rewrite IH.
Qed.

Lemma sorted_length {A} (key : A → Z) l :
  length (Sorting.sorted key l) = length l.
Proof.
  induction l as [|x l IH]; simpl; [done|].
  by rewrite insert_sorted_length, IH.
Qed.

(** A loaded character has as many decisions as its file. *)
Lemma init_total_decisions character_id data :
  Character.get_total_decisions (Character.init character_id data)
  = Z.of_nat (length (get_or (cd_decisions data) [])).
Proof. unfold Character.get_total_decisions. simpl. by rewrite sorted_length. Qed.

Lemma get_total_decisions_nonneg c : 0 ≤ Character.get_total_decisions c.
Proof. unfold Character.get_total_decisions. lia. Qed.

(** A choice key that the decision does not offer scores nothing. *)
Lemma get_choice_score_unknown c n choice decision choices :
  Character.get_decision c n = Some decision →
  d_choices decision = Some choices →
  choices !! choice = None →
  Character.get_choice_score c n choice = 0.
Proof.
  intros Hd Hc Hk. unfold Character.get_choice_score. by rewrite Hd, Hc, Hk.
Qed.

(** ** GameSession.make_decision *)

(** The guard at the head of [GameSession.make_decision]. *)
Lemma session_refuses_other_number s decision_number choice now :
  decision_number ≠ GameSession.current_decision s →
  GameSession.make_decision s decision_number choice now = (s, 0).
Proof.
  intros Hne. unfold GameSession.make_decision.
  by rewrite bool_decide_eq_true_2.
Qed.

(** C10. [GameSession.make_decision] called with a decision number other
    than the session's current one returns score 0 and the session is left
    exactly as it was: total score, current decision, recorded decisions and
    last activity keep their values. *)
Theorem make_decision_wrong_number_is_noop
    (s : GameSession.t) (decision_number : Z) (choice : string) (now : Z) :
  decision_number ≠ GameSession.current_decision s →
  let '(s', score) := GameSession.make_decision s decision_number choice now in
  score = 0
  ∧ GameSession.total_score s' = GameSession.total_score s
  ∧ GameSession.current_decision s' = GameSession.current_decision s
  ∧ GameSession.decisions_made s' = GameSession.decisions_made s
  ∧ GameSession.last_activity s' = GameSession.last_activity s
  ∧ s' = s.
Proof.
  intros Hne. by rewrite session_refuses_other_number.
Qed.

Lemma make_decision_wrong_number_is_noop_witness :
  2 ≠ GameSession.current_decision (GameSession.init 0 7 Scenario.alice 1 100 0)
  ∧ let '(s', score) :=
      GameSession.make_decision (GameSession.init 0 7 Scenario.alice 1 100 0)
        2 "a" 50 in
    score = 0
    ∧ GameSession.total_score s' = 0
    ∧ GameSession.current_decision s' = 1
    ∧ GameSession.decisions_made s' = ∅
    ∧ GameSession.last_activity s' = 0
    ∧ s' = GameSession.init 0 7 Scenario.alice 1 100 0.
Proof.
  split; [simpl; lia|].
  apply (make_decision_wrong_number_is_noop
           (GameSession.init 0 7 Scenario.alice 1 100 0) 2 "a" 50).
  simpl; lia.
Defined.

(** What the session does when it is given its own current number: the
    choice is recorded, its score added, the index moved on by one and the
    activity stamp refreshed. *)
Lemma make_decision_current_number s choice now :
  GameSession.make_decision s (GameSession.current_decision s) choice now
  = ({| GameSession.id := GameSession.id s;
        GameSession.user_id := GameSession.user_id s;
        GameSession.character := GameSession.character s;
        GameSession.game_id := GameSession.game_id s;
        GameSession.channel_id := GameSession.channel_id s;
        GameSession.current_decision := GameSession.current_decision s + 1;
        GameSession.total_score :=
          GameSession.total_score s
          + Character.get_choice_score (GameSession.character s)
              (GameSession.current_decision s) choice;
        GameSession.decisions_made :=
          <[GameSession.current_decision s := choice]>
            (GameSession.decisions_made s);
        GameSession.last_activity := now;
        GameSession.message_id := GameSession.message_id s |},
     Character.get_choice_score (GameSession.character s)
       (GameSession.current_decision s) choice).
Proof.
  unfold GameSession.make_decision. by rewrite bool_decide_eq_false_2 by auto.
Qed.

(** The index of a session never goes down, whatever number is passed. *)
Lemma make_decision_index_monotone s n choice now :
  GameSession.current_decision s
  ≤ GameSession.current_decision (fst (GameSession.make_decision s n choice now)).
Proof.
  unfold GameSession.make_decision. case_bool_decide; simpl; lia.
Qed.

(** ** GameManager.make_decision *)

(** The manager hands the session [current_decision - 1], which is never
    the current number: the session refuses it, and the call changes the
    database alone. *)
Lemma manager_make_decision_live w session_id choice now session db :
  GameManager.active_sessions w !! session_id = Some session →
  GameManager.database w = Some db →
  GameManager.make_decision session_id choice now w
  = (GameManager.set_database
       ((if GameSession.is_completed session
         then Database.complete_game (GameSession.game_id session)
         else λ d, d)
          (Database.update_session_activity session_id
             (Database.record_decision (GameSession.game_id session)
                (GameSession.current_decision session - 1) choice 0 db)))
       w,
     (0, GameSession.is_completed session)).
Proof.
  intros Hs Hdb. unfold GameManager.make_decision. rewrite Hs, Hdb.
  rewrite session_refuses_other_number by lia.
  rewrite insert_id by done.
  destruct w; simpl in *. by destruct (GameSession.is_completed session).
Qed.

Lemma manager_make_decision_unknown w session_id choice now :
  GameManager.active_sessions w !! session_id = None →
  GameManager.make_decision session_id choice now w = (w, (0, false)).
Proof. intros Hs. unfold GameManager.make_decision. by rewrite Hs. Qed.

(** No call of the manager's [make_decision] touches a session. *)
Lemma manager_make_decision_sessions w session_id choice now :
  GameManager.active_sessions
    (fst (GameManager.make_decision session_id choice now w))
  = GameManager.active_sessions w
  ∧ GameManager.user_sessions
      (fst (GameManager.make_decision session_id choice now w))
    = GameManager.user_sessions w
  ∧ GameManager.next_uuid
      (fst (GameManager.make_decision session_id choice now w))
    = GameManager.next_uuid w
  ∧ fst (snd (GameManager.make_decision session_id choice now w)) = 0.
Proof.
  destruct (GameManager.active_sessions w !! session_id) as [session|] eqn:Hs.
  - destruct (GameManager.database w) as [db|] eqn:Hdb.
    + by rewrite (manager_make_decision_live _ _ _ _ _ _ Hs Hdb).
    + unfold GameManager.make_decision. by rewrite Hs, Hdb.
  - by rewrite manager_make_decision_unknown.
Qed.

(** C1.  The specification has [advance] record the choice, add its score,
    move the index on and refresh the activity stamp, so that on the
    two-decision character "a" then "b" yield +10 then +20 and the index
    goes 1, 2, 3.  The code does none of it: on that very scenario both
    calls return [(0, False)] and the session stays the fresh one, at
    decision 1 with score 0, no decision recorded and the activity stamp of
    its creation, while the database is told of a decision number 0 worth 0
    points. *)
Theorem advance_on_scenario_awards_nothing :
  let '(w1, r1) := GameManager.make_decision 0 "a" 5 Scenario.started in
  let '(w2, r2) := GameManager.make_decision 0 "b" 9 w1 in
  r1 = (0, false) ∧ r2 = (0, false)
  ∧ GameManager.active_sessions w2 !! 0%nat
    = Some (GameSession.init 0 7 Scenario.alice 1 100 0)
  ∧ (Database.calls <$> GameManager.database w2)
    = Some [Database.UpdateSessionActivity 0;
            Database.RecordDecision 1 0 "b" 0;
            Database.UpdateSessionActivity 0;
            Database.RecordDecision 1 0 "a" 0;
            Database.CreateSession 0 7 1 100;
            Database.CreateGame 7 "alice" 1;
            Database.GetOrCreateUser 7 "player"]
  ∧ Character.get_choice_score Scenario.alice 1 "a" = 10
  ∧ Character.get_choice_score Scenario.alice 2 "b" = 20.
Proof. vm_compute. repeat split; reflexivity. Qed.

(** C2.  The specification has an unrecognised choice key recorded as a
    zero-score pick that still moves the index on.  The session's own
    [make_decision] does so when given the current number, but the manager
    never gives it that number: on the scenario, [advance] with key "z"
    returns score 0 and the index stays at 1, nothing being recorded. *)
Theorem advance_unknown_key_does_not_advance :
  let started_session := GameSession.init 0 7 Scenario.alice 1 100 0 in
  let '(w1, r1) := GameManager.make_decision 0 "z" 5 Scenario.started in
  GameManager.active_sessions Scenario.started !! 0%nat = Some started_session
  ∧ r1 = (0, false)
  ∧ (GameSession.current_decision <$> GameManager.active_sessions w1 !! 0%nat)
    = Some 1
  ∧ (GameSession.decisions_made <$> GameManager.active_sessions w1 !! 0%nat)
    = Some ∅
  ∧ GameSession.current_decision
      (fst (GameSession.make_decision started_session 1 "z" 5)) = 2
  ∧ GameSession.decisions_made
      (fst (GameSession.make_decision started_session 1 "z" 5)) !! 1
    = Some "z"%string.
Proof. vm_compute. repeat split; reflexivity. Qed.

(** C6, as the specification states it, fails: with session id 99, which is
    not in the table of the scenario, [advance] returns the ordinary pair
    [(0, False)] and [endSession] returns as well, both leaving the state as
    it was; neither ends in the failure [SessionNotFound]. *)
Lemma unknown_session_is_not_a_failure :
  GameManager.active_sessions Scenario.started !! 99%nat = None
  ∧ Engine.advance 99 "a" 5 Scenario.started
    = (Scenario.started, Engine.Returned (0, false))
  ∧ snd (Engine.advance 99 "a" 5 Scenario.started)
    ≠ Engine.Failed Engine.SessionNotFound
  ∧ Engine.endSession 99 true Scenario.started
    = (Scenario.started, Engine.Returned ())
  ∧ snd (Engine.endSession 99 true Scenario.started)
    ≠ Engine.Failed Engine.SessionNotFound.
Proof. vm_compute. repeat split; (reflexivity || discriminate). Qed.

(** C6, amended.  With a session id that is not in the live table,
    [advance] returns the pair [(0, False)] and [endSession] returns
    normally; both leave the engine state exactly as it was. *)
Theorem unknown_session_returns_normally
    (w : GameManager.t) (session_id : nat) (choice : string) (now : Z)
    (completed : bool) :
  GameManager.active_sessions w !! session_id = None →
  Engine.advance session_id choice now w = (w, Engine.Returned (0, false))
  ∧ Engine.endSession session_id completed w = (w, Engine.Returned ()).
Proof.
  intros Hs. unfold Engine.advance, Engine.endSession.
  rewrite manager_make_decision_unknown by done.
  unfold GameManager.end_game_session. by rewrite Hs.
Qed.

Lemma unknown_session_returns_normally_witness :
  GameManager.active_sessions Scenario.started !! 99%nat = None
  ∧ Engine.advance 99 "a" 5 Scenario.started
    = (Scenario.started, Engine.Returned (0, false))
  ∧ Engine.endSession 99 true Scenario.started
    = (Scenario.started, Engine.Returned ()).
Proof.
  split; [vm_compute; reflexivity|].
  apply (unknown_session_returns_normally Scenario.started 99 "a" 5 true).
  vm_compute; reflexivity.
Defined.

(** C7.  The specification has the sweep notify the user of every session
    it ends.  The code asks whether the session is still in the table after
    [end_game_session] has deleted it, so the notification is never reached:
    with user 7 idle for more than 300 seconds and user 8 for less, the
    sweep ends the session of user 7 as incomplete, that user's lookup then
    finds nothing, the session of user 8 survives, and no message has been
    sent although user 7 is in the bot's cache. *)
Theorem sweep_ends_idle_session_without_notice :
  let w := GameManager.cleanup_old_sessions 300000001 Scenario.two_players in
  GameManager.sessions_to_remove 300000001 Scenario.two_players = [0%nat]
  ∧ GameManager.users Scenario.two_players !! 7 = Some "player"%string
  ∧ GameManager.active_sessions w !! 0%nat = None
  ∧ snd (GameManager.get_user_session 7 w) = None
  ∧ (GameSession.user_id <$> snd (GameManager.get_user_session 8 w)) = Some 8
  ∧ (Database.calls <$> GameManager.database w)
    = (cons (Database.EndSession 0) <$>
         (Database.calls <$> GameManager.database Scenario.two_players))
  ∧ GameManager.sent w = [].
Proof. vm_compute. repeat split; reflexivity. Qed.

(** As long as the database cog is loaded, no sweep sends anything. *)
Lemma cleanup_one_with_database w session_id db :
  GameManager.database w = Some db →
  GameManager.cleanup_one w session_id
  = GameManager.end_game_session session_id false w
  ∧ is_Some (GameManager.database (GameManager.cleanup_one w session_id))
  ∧ GameManager.sent (GameManager.cleanup_one w session_id) = GameManager.sent w.
Proof.
  intros Hdb. unfold GameManager.cleanup_one, GameManager.end_game_session.
  destruct (GameManager.active_sessions w !! session_id) as [s|] eqn:Hs.
  - rewrite Hdb. simpl. rewrite lookup_delete_eq. by eauto.
  - rewrite Hs. rewrite Hdb. by eauto.
Qed.

Lemma cleanup_sends_nothing now w db :
  GameManager.database w = Some db →
  GameManager.sent (GameManager.cleanup_old_sessions now w) = GameManager.sent w.
Proof.
  unfold GameManager.cleanup_old_sessions.
  generalize (GameManager.sessions_to_remove now w) as l.
  intros l. revert w db. induction l as [|session_id l IH]; intros w db Hdb.
  - done.
  - simpl. destruct (cleanup_one_with_database w session_id db Hdb)
      as (_ & [db' Hdb'] & Hsent).
    rewrite (IH _ db' Hdb'). exact Hsent.
Qed.

(** ** The analysis *)

(** The inner loop of [get_max_possible_score] yields the largest score
    among the choices when that is positive, and 0 otherwise. *)
Lemma highest_score_spec (choices : gmap string ChoiceData) :
  let highest := GameSession.highest_score choices in
  0 ≤ highest
  ∧ (∀ key data score,
        choices !! key = Some data → choice_score data = Some score →
        score ≤ highest)
  ∧ (highest = 0
     ∨ ∃ key data,
         choices !! key = Some data ∧ choice_score data = Some highest).
Proof.
  unfold GameSession.highest_score.
  apply (map_fold_weak_ind (λ h (m : gmap string ChoiceData),
    0 ≤ h
    ∧ (∀ key data score,
         m !! key = Some data → choice_score data = Some score → score ≤ h)
    ∧ (h = 0 ∨ ∃ key data, m !! key = Some data ∧ choice_score data = Some h))).
  - split; [lia|]. split; [|by left].
    intros key data score Hk. by rewrite lookup_empty in Hk.
  - intros i x m r Hi (Hpos & Hub & Hwit).
    assert (Hkeep : ∀ h',
      r ≤ h' →
      (∀ score, choice_score x = Some score → score ≤ h') →
      ∀ key data score,
        <[i:=x]> m !! key = Some data → choice_score data = Some score →
        score ≤ h').
    { intros h' Hr Hx key data score Hk Hsc.
      apply lookup_insert_Some in Hk as [[-> ->]|[_ Hk]]; [by apply Hx|].
      specialize (Hub _ _ _ Hk Hsc). lia. }
    assert (Hold : r = 0 ∨ ∃ key data,
      <[i:=x]> m !! key = Some data ∧ choice_score data = Some r).
    { destruct Hwit as [->|(key & data & Hk & Hsc)]; [by left|].
      right. exists key, data. split; [|done].
      rewrite lookup_insert_ne; [done|]. intros ->. congruence. }
    destruct (choice_score x) as [score|] eqn:Hx.
    + case_bool_decide.
      * split; [lia|]. split.
        -- apply Hkeep; [lia|]. intros ? [= <-]. lia.
        -- right. exists i, x. by rewrite lookup_insert_eq.
      * split; [lia|]. split; [|done].
        apply Hkeep; [lia|]. intros ? [= <-]. lia.
    + split; [lia|]. split; [|done]. apply Hkeep; [lia|]. intros ? [=].
Qed.

(** [correct_decisions] is the number of recorded entries whose choice is
    the correct choice of their decision. *)
Lemma count_correct_spec (c : Character.t) (made : gmap Z string) :
  GameSession.count_correct c made
  = Z.of_nat (size (filter (λ kv, Character.is_correct_choice c (fst kv) (snd kv) = true)
                           made)).
Proof.
  unfold GameSession.count_correct.
  apply (map_fold_weak_ind (λ n (m : gmap Z string),
    n = Z.of_nat (size (filter
          (λ kv, Character.is_correct_choice c (fst kv) (snd kv) = true) m)))).
  - by rewrite map_filter_empty, map_size_empty.
  - intros i x m r Hi ->.
    destruct (Character.is_correct_choice c i x) eqn:Hc.
    + rewrite map_filter_insert_True by done.
      rewrite map_size_insert_None; [lia|].
      apply map_lookup_filter_None. by left.
    + rewrite map_filter_insert_not'; [done|simpl; congruence|].
      intros y Hy. congruence.
Qed.

(** The tier a percentage selects, and the fall-back when the character has
    no template for it. *)
Lemma get_analysis_tier (c : Character.t) (p : Qc) :
  ((Qc_of_Z 80 ≤ p)%Qc →
     Character.get_analysis c p
     = default Character.default_excellent
               (Character.analysis_templates c !! "excellent"%string))
  ∧ ((Qc_of_Z 60 ≤ p)%Qc → (p < Qc_of_Z 80)%Qc →
     Character.get_analysis c p
     = default Character.default_good
               (Character.analysis_templates c !! "good"%string))
  ∧ ((p < Qc_of_Z 60)%Qc →
     Character.get_analysis c p
     = default Character.default_needs_improvement
               (Character.analysis_templates c !! "needs_improvement"%string)).
Proof.
  unfold Character.get_analysis. repeat split.
  - intros H. by rewrite bool_decide_eq_true_2.
  - intros H60 H80. rewrite bool_decide_eq_false_2 by by apply Qclt_nge.
    by rewrite bool_decide_eq_true_2.
  - intros H60.
    assert (p < Qc_of_Z 80)%Qc as H80.
    { eapply Qclt_trans; [exact H60|]. by vm_compute. }
    rewrite bool_decide_eq_false_2 by by apply Qclt_nge.
    by rewrite bool_decide_eq_false_2 by by apply Qclt_nge.
Qed.

(** C8.  The specification has [maxPossibleScore] be the sum of the highest
    choice score of every decision; the docstring of
    [get_max_possible_score] says "maximum possible score" and its comment
    "find the highest scoring choice".  The loop starts its search at 0, so
    a decision whose choices all lose points counts for 0: for the
    character whose single decision offers -5 and -2, the highest choice
    score is -2 but the code reports a maximum of 0, and after the best
    pick, worth -2, a percentage of 0. *)
Theorem max_possible_score_misses_negative_best :
  let s := GameSession.init 0 7 Scenario.bear 1 100 0 in
  let s' := fst (GameSession.make_decision s 1 "b" 5) in
  Character.get_total_decisions Scenario.bear = 1
  ∧ Character.get_decision Scenario.bear 1 = Some Scenario.bear_decision
  ∧ Character.get_choice_score Scenario.bear 1 "a" = -5
  ∧ Character.get_choice_score Scenario.bear 1 "b" = -2
  ∧ GameSession.get_max_possible_score s = 0
  ∧ GameSession.a_max_score (GameSession.get_analysis s') = 0
  ∧ GameSession.a_score (GameSession.get_analysis s') = -2
  ∧ GameSession.a_percentage (GameSession.get_analysis s') = Qc_of_Z 0.
Proof. vm_compute. repeat split; reflexivity. Qed.

(** ** The validator and the loader *)

Lemma required_character_fields_found data :
  find (λ field, negb (CharacterLoader.data_has data field))
       Config.REQUIRED_CHARACTER_FIELDS = None
  ↔ Spec.top_level_fields_present data.
Proof.
  unfold Spec.top_level_fields_present.
  destruct data as [n t y i k d a].
  destruct n, t, y, i, k, d, a; simpl;
    (split; [intros H; try discriminate H; by eauto 10
            |intros H; try reflexivity;
             repeat match goal with
                    | H : _ ∧ _ |- _ => destruct H
                    | H : is_Some None |- _ => by destruct H
                    end]).
Qed.

Lemma check_decision_passes decision_id decision :
  CharacterLoader.check_decision decision_id decision = None
  ↔ Spec.decision_ok decision.
Proof.
  unfold Spec.decision_ok, CharacterLoader.check_decision.
  destruct decision as [y c q ch cc h].
  destruct y, c, q, ch as [choices|], cc as [correct|]; simpl;
    try (split; [intros H; discriminate H
                |intros H;
                 repeat match goal with
                        | H : _ ∧ _ |- _ => destruct H
                        | H : ∃ _, _ |- _ => destruct H
                        | H : is_Some None |- _ => by destruct H
                        | H : None = Some _ |- _ => discriminate H
                        end]).
  unfold CharacterLoader.no_choices.
  case_bool_decide as Hsize.
  - apply map_size_empty_iff in Hsize. split; [done|].
    intros (_ & _ & _ & choices' & correct' & [= <-] & _ & Hne & _). done.
  - case_bool_decide as Hin.
    + split; [|done]. intros _. repeat (split; [by eauto|]).
      exists choices, correct. repeat split; [|done].
      intros ->. by rewrite map_size_empty in Hsize.
    + split; [done|].
      intros (_ & _ & _ & choices' & correct' & [= <-] & [= <-] & _ & Hin').
      done.
Qed.

Lemma check_decisions_pass decisions :
  CharacterLoader.check_decisions decisions = None
  ↔ Forall (λ kd, Spec.decision_ok (snd kd)) decisions.
Proof.
  induction decisions as [|[decision_id decision] rest IH]; simpl.
  - split; [by constructor|done].
  - pose proof (check_decision_passes decision_id decision) as Hhead.
    destruct (CharacterLoader.check_decision decision_id decision) as [err|].
    + split; [done|]. intros Hall. inversion Hall as [|? ? Hok _]; subst.
      by apply Hhead in Hok.
    + rewrite IH. split.
      * intros Hall. constructor; [by apply Hhead|done].
      * intros Hall. by inversion Hall.
Qed.

(** The validator accepts exactly the files the rules describe. *)
Lemma validate_character_accepts character_id data :
  fst (CharacterLoader._validate_character character_id data) = true
  ↔ Spec.acceptable data.
Proof.
  unfold CharacterLoader._validate_character, Spec.acceptable.
  destruct (find _ Config.REQUIRED_CHARACTER_FIELDS) as [field|] eqn:Hfind.
  - split; [done|]. intros [Htop _].
    apply required_character_fields_found in Htop. congruence.
  - apply required_character_fields_found in Hfind.
    destruct (cd_decisions data) as [decisions|] eqn:Hd.
    2:{ exfalso. destruct Hfind as (_ & _ & _ & _ & _ & [? Hx] & _).
        congruence. }
    change (get_or (Some decisions) []) with decisions.
    destruct decisions as [|kd rest].
    + split; [intros H; discriminate H|]. intros (_ & ? & [= <-] & ? & _). done.
    + destruct (CharacterLoader.check_decisions (kd :: rest)) as [err|] eqn:Hc.
      * split; [done|]. intros (_ & ? & [= <-] & _ & Hall).
        apply check_decisions_pass in Hall. congruence.
      * apply check_decisions_pass in Hc.
        assert (fst (if bool_decide
                          (size (get_or (cd_analysis_templates data) ∅) = 0%nat)
                     then (true, [(CharacterLoader.WARNING,
                                   CharacterLoader.NoAnalysisTemplates)])
                     else (true, [])) = true) as -> by by case_bool_decide.
        split; [|done]. intros _. split; [done|]. by exists (kd :: rest).
Qed.

(** An accepted file with an empty [analysis_templates] draws the warning. *)
Lemma validate_character_warns character_id data :
  Spec.acceptable data →
  cd_analysis_templates data = Some ∅ →
  CharacterLoader._validate_character character_id data
  = (true, [(CharacterLoader.WARNING, CharacterLoader.NoAnalysisTemplates)]).
Proof.
  intros Hok Hempty. pose proof Hok as (Htop & decisions & Hd & Hne & Hall).
  unfold CharacterLoader._validate_character.
  apply required_character_fields_found in Htop. rewrite Htop, Hd.
  change (get_or (Some decisions) []) with decisions.
  destruct decisions as [|kd rest]; [done|].
  apply check_decisions_pass in Hall. rewrite Hall, Hempty.
  change (get_or (Some ∅) ∅) with (∅ : gmap string Template).
  by rewrite bool_decide_eq_true_2 by apply map_size_empty.
Qed.

(** A rejected file leaves the table as it finds it. *)
Lemma load_file_rejected characters file :
  Spec.rejected file → CharacterLoader.load_file characters file = characters.
Proof.
  unfold Spec.rejected, CharacterLoader.load_file.
  destruct (snd file) as [data|]; [|done]. by intros ->.
Qed.

(** C9, as the specification states it, fails: Alice's file without the
    [analysis_templates] key, every other rule being met, is rejected for
    the missing field, and the loader's table stays empty. *)
Lemma missing_analysis_templates_is_rejected :
  CharacterLoader._validate_character "alice" Scenario.alice_without_templates
  = (false, [(CharacterLoader.ERROR,
              CharacterLoader.MissingField "analysis_templates")])
  ∧ CharacterLoader._load_all_characters
      (Some [("alice"%string, Some Scenario.alice_without_templates)]) = ∅
  ∧ fst (CharacterLoader._validate_character "alice" Scenario.alice_data) = true.
Proof. vm_compute. repeat split; reflexivity. Qed.

(** C9, amended.  The validator accepts a file exactly when all seven
    required top-level fields are present, [analysis_templates] among them,
    [decisions] is not empty, and every decision has its five required
    fields, a non-empty [choices] and a [correct_choice] that is a key of
    [choices].  A file whose [analysis_templates] is present but empty is
    accepted with a warning.  A file that fails validation, or whose reading
    fails, is left out and the load of the other files is what it would be
    without it. *)
Theorem content_store_validation :
  (∀ character_id data,
     fst (CharacterLoader._validate_character character_id data) = true
     ↔ Spec.acceptable data)
  ∧ (∀ character_id data,
       Spec.acceptable data → cd_analysis_templates data = Some ∅ →
       CharacterLoader._validate_character character_id data
       = (true, [(CharacterLoader.WARNING, CharacterLoader.NoAnalysisTemplates)]))
  ∧ (∀ before file after,
       Spec.rejected file →
       CharacterLoader._load_all_characters (Some (before ++ file :: after))
       = CharacterLoader._load_all_characters (Some (before ++ after))).
Proof.
  split; [exact validate_character_accepts|].
  split; [exact validate_character_warns|].
  intros before file after Hrej. simpl.
  rewrite !foldl_app. simpl. by rewrite load_file_rejected.
Qed.

Lemma content_store_validation_witness :
  Spec.acceptable Scenario.alice_data
  ∧ CharacterLoader._validate_character "alice" Scenario.alice_data
    = (true, [(CharacterLoader.WARNING, CharacterLoader.NoAnalysisTemplates)])
  ∧ Spec.rejected ("bob"%string, Some Scenario.alice_without_templates)
  ∧ CharacterLoader._load_all_characters
      (Some ([("alice"%string, Some Scenario.alice_data)]
             ++ ("bob"%string, Some Scenario.alice_without_templates) :: []))
    = CharacterLoader._load_all_characters
        (Some ([("alice"%string, Some Scenario.alice_data)] ++ [])).
Proof.
  destruct content_store_validation as (Hiff & Hwarn & Hskip).
  assert (Spec.acceptable Scenario.alice_data) as Hok.
  { apply (Hiff "alice"%string). vm_compute. reflexivity. }
  split; [exact Hok|].
  split; [apply Hwarn; [exact Hok|reflexivity]|].
  assert (Spec.rejected ("bob"%string, Some Scenario.alice_without_templates))
    as Hrej by (vm_compute; reflexivity).
  split; [exact Hrej|]. apply Hskip. exact Hrej.
Defined.

(** ** Invariants of the session tables *)

(** What [end_game_session] does to the state. *)
Lemma end_game_session_cases session_id completed w :
  GameManager.end_game_session session_id completed w = w
  ∨ ∃ session db,
      GameManager.active_sessions w !! session_id = Some session
      ∧ GameManager.database w = Some db
      ∧ GameManager.active_sessions
          (GameManager.end_game_session session_id completed w)
        = delete session_id (GameManager.active_sessions w)
      ∧ GameManager.user_sessions
          (GameManager.end_game_session session_id completed w)
        = (if bool_decide (GameManager.user_sessions w
                             !! GameSession.user_id session = Some session_id)
           then delete (GameSession.user_id session) (GameManager.user_sessions w)
           else GameManager.user_sessions w)
      ∧ GameManager.database
          (GameManager.end_game_session session_id completed w)
        = Some (Database.end_session session_id
                  (if completed && negb (GameSession.is_completed session)
                   then Database.complete_game (GameSession.game_id session) db
                   else db))
      ∧ GameManager.next_uuid
          (GameManager.end_game_session session_id completed w)
        = GameManager.next_uuid w.
Proof.
  unfold GameManager.end_game_session.
  destruct (GameManager.active_sessions w !! session_id) as [session|] eqn:Hs;
    [|by left].
  destruct (GameManager.database w) as [db|] eqn:Hdb; [|by left].
  right. exists session, db. by repeat split.
Qed.

Lemma end_game_session_consistent session_id completed w :
  Engine.consistent w →
  Engine.consistent (GameManager.end_game_session session_id completed w).
Proof.
  intros [Hw Hreg].
  destruct (end_game_session_cases session_id completed w)
    as [->|(session & db & Hs & Hdb & Ha & Hu & _ & Hn)]; [done|].
  destruct (Hw _ _ Hs) as (_ & _ & Hmine).
  rewrite bool_decide_eq_true_2 in Hu by done.
  split.
  - intros sid s. rewrite Ha, Hu, Hn.
    intros [Hne Hlive]%lookup_delete_Some.
    destruct (Hw _ _ Hlive) as (Hid & Hlt & Hsid).
    repeat split; [done..|].
    rewrite lookup_delete_ne; [done|]. intros Heq. congruence.
  - intros user_id sid. rewrite Ha, Hu.
    intros [Hne Hsid]%lookup_delete_Some.
    destruct (Hreg _ _ Hsid) as (s & Hlive & Huser).
    exists s. split; [|done].
    rewrite lookup_delete_ne; [done|]. intros <-. congruence.
Qed.

Lemma end_game_session_sessions session_id completed w sid s :
  GameManager.active_sessions
    (GameManager.end_game_session session_id completed w) !! sid = Some s →
  GameManager.active_sessions w !! sid = Some s.
Proof.
  destruct (end_game_session_cases session_id completed w)
    as [->|(session & db & _ & _ & Ha & _)]; [done|].
  rewrite Ha. by intros [_ ?]%lookup_delete_Some.
Qed.

Lemma cleanup_one_sessions w session_id :
  GameManager.active_sessions (GameManager.cleanup_one w session_id)
  = GameManager.active_sessions
      (GameManager.end_game_session session_id false w)
  ∧ GameManager.user_sessions (GameManager.cleanup_one w session_id)
    = GameManager.user_sessions
        (GameManager.end_game_session session_id false w)
  ∧ GameManager.next_uuid (GameManager.cleanup_one w session_id)
    = GameManager.next_uuid
        (GameManager.end_game_session session_id false w).
Proof.
  unfold GameManager.cleanup_one.
  destruct (GameManager.active_sessions _ !! session_id) as [s|]; [|done].
  by destruct (GameManager.users _ !! GameSession.user_id s).
Qed.

Lemma cleanup_one_consistent w session_id :
  Engine.consistent w → Engine.consistent (GameManager.cleanup_one w session_id).
Proof.
  intros Hw. unfold Engine.consistent.
  destruct (cleanup_one_sessions w session_id) as (-> & -> & ->).
  by apply end_game_session_consistent.
Qed.

Lemma cleanup_consistent now w :
  Engine.consistent w →
  Engine.consistent (GameManager.cleanup_old_sessions now w).
Proof.
  unfold GameManager.cleanup_old_sessions.
  generalize (GameManager.sessions_to_remove now w). intros l. revert w.
  induction l as [|sid l IH]; intros w Hw; [done|].
  simpl. by apply IH, cleanup_one_consistent.
Qed.

Lemma cleanup_sessions now w sid s :
  GameManager.active_sessions (GameManager.cleanup_old_sessions now w) !! sid
  = Some s →
  GameManager.active_sessions w !! sid = Some s.
Proof.
  unfold GameManager.cleanup_old_sessions.
  generalize (GameManager.sessions_to_remove now w). intros l. revert w.
  induction l as [|x l IH]; intros w Hlive; [done|].
  simpl in Hlive. apply IH in Hlive.
  destruct (cleanup_one_sessions w x) as (Ha & _). rewrite Ha in Hlive.
  by eapply end_game_session_sessions.
Qed.

Lemma get_user_session_consistent user_id w :
  Engine.consistent w →
  GameManager.get_user_session user_id w
  = (w, match GameManager.user_sessions w !! user_id with
        | Some session_id => GameManager.active_sessions w !! session_id
        | None => None
        end).
Proof.
  intros [_ Hreg]. unfold GameManager.get_user_session.
  destruct (GameManager.user_sessions w !! user_id) as [sid|] eqn:Hu; [|done].
  destruct (Hreg _ _ Hu) as (s & -> & _). done.
Qed.

(** What a successful [create_game_session] does to a consistent state. *)
Lemma create_game_session_cases user_id character_id channel_id now w :
  Engine.consistent w →
  GameManager.create_game_session user_id character_id channel_id now w
  = (w, None)
  ∨ ∃ characters character db,
      GameManager.character_loader w = Some characters
      ∧ characters !! character_id = Some character
      ∧ GameManager.database w = Some db
      ∧ let uuid := GameManager.next_uuid w in
        let session :=
          GameSession.init uuid user_id character (Database.next_game_id db)
                           channel_id now in
        let w' :=
          fst (GameManager.create_game_session user_id character_id
                                               channel_id now w) in
        snd (GameManager.create_game_session user_id character_id
                                             channel_id now w) = Some session
        ∧ GameManager.next_uuid w' = S uuid
        ∧ GameManager.active_sessions w'
          = <[uuid := session]>
              (match GameManager.user_sessions w !! user_id with
               | Some old => delete old (GameManager.active_sessions w)
               | None => GameManager.active_sessions w
               end)
        ∧ GameManager.user_sessions w'
          = <[user_id := uuid]> (GameManager.user_sessions w)
        ∧ (Database.calls <$> GameManager.database w')
          = Some (Database.CreateSession uuid user_id (Database.next_game_id db)
                                         channel_id
                  :: match GameManager.user_sessions w !! user_id with
                     | Some old => [Database.EndSession old]
                     | None => []
                     end
                  ++ Database.CreateGame user_id character_id
                                         (Database.next_game_id db)
                  :: Database.GetOrCreateUser user_id
                       (default "Unknown"%string (GameManager.users w !! user_id))
                  :: Database.calls db).
Proof.
  intros [Hw Hreg]. unfold GameManager.create_game_session.
  destruct (GameManager.character_loader w) as [characters|] eqn:Hl; [|by left].
  destruct (characters !! character_id) as [character|] eqn:Hc; [|by left].
  destruct (GameManager.database w) as [db|] eqn:Hdb; [|by left].
  right. exists characters, character, db. repeat (split; [done|]).
  unfold Database.create_game, GameManager.draw_uuid. simpl.
  destruct (GameManager.user_sessions w !! user_id) as [old|] eqn:Hu.
  - destruct (Hreg _ _ Hu) as (so & Hold & Huser).
    destruct (Hw _ _ Hold) as (_ & Hlt & _).
    assert (GameManager.next_uuid w ≠ old) as Hne by lia.
    rewrite lookup_insert_ne by done. rewrite Hold.
    rewrite bool_decide_eq_true_2 by eauto.
    unfold GameManager.end_game_session. simpl.
    rewrite lookup_insert_ne by done. rewrite Hold. simpl.
    rewrite Huser, Hu. rewrite bool_decide_eq_true_2 by done. simpl.
    repeat split; [|].
    + by rewrite delete_insert_ne.
    + by rewrite insert_delete_eq.
  - simpl. by repeat split.
Qed.

Lemma create_game_session_consistent user_id character_id channel_id now w :
  Engine.consistent w →
  Engine.consistent
    (fst (GameManager.create_game_session user_id character_id channel_id now w)).
Proof.
  intros Hcons. pose proof Hcons as [Hw Hreg].
  destruct (create_game_session_cases user_id character_id channel_id now w Hcons)
    as [->|(characters & character & db & _ & _ & _ & Hcase)]; [done|].
  simpl in Hcase. destruct Hcase as (_ & Hn & Ha & Hu & _).
  set (w' := fst (GameManager.create_game_session _ _ _ _ w)) in *.
  assert (Hsub : ∀ sid s',
    match GameManager.user_sessions w !! user_id with
    | Some old => delete old (GameManager.active_sessions w)
    | None => GameManager.active_sessions w
    end !! sid = Some s' →
    GameManager.active_sessions w !! sid = Some s'
    ∧ GameManager.user_sessions w !! user_id ≠ Some sid).
  { intros sid s'. destruct (GameManager.user_sessions w !! user_id) as [old|].
    - intros [Hne ?]%lookup_delete_Some. split; [done|congruence].
    - done. }
  split.
  - intros sid s'. rewrite Ha, Hu, Hn.
    intros [[<- <-]|[Hne Hlive]]%lookup_insert_Some.
    + simpl. rewrite lookup_insert_eq. repeat split; [lia].
    + apply Hsub in Hlive as [Hlive Hnot].
      destruct (Hw _ _ Hlive) as (Hid & Hlt & Hmine).
      repeat split; [done|lia|].
      rewrite lookup_insert_ne; [done|]. intros Heq. congruence.
  - intros u sid. rewrite Ha, Hu.
    intros [[<- <-]|[Hne Hsid]]%lookup_insert_Some.
    + eexists. rewrite lookup_insert_eq. done.
    + destruct (Hreg _ _ Hsid) as (s' & Hlive & Huser).
      destruct (Hw _ _ Hlive) as (_ & Hlt & _).
      exists s'. split; [|done].
      rewrite lookup_insert_ne by lia.
      destruct (GameManager.user_sessions w !! user_id) as [old|] eqn:Hold;
        [|done].
      rewrite lookup_delete_ne; [done|]. intros <-.
      destruct (Hreg _ _ Hold) as (so & Hso & Huo). congruence.
Qed.

Lemma run_consistent w o :
  Engine.consistent w → Engine.consistent (Engine.run w o).
Proof.
  intros Hw. destruct o as [u c ch now|u|sid choice now|sid b|sid r cm|now]; simpl.
  - by apply create_game_session_consistent.
  - by rewrite get_user_session_consistent.
  - unfold Engine.consistent.
    destruct (manager_make_decision_sessions w sid choice now)
      as (-> & -> & -> & _). done.
  - by apply end_game_session_consistent.
  - unfold GameManager.record_feedback.
    destruct (GameManager.active_sessions w !! sid); [|done].
    destruct (GameManager.database w); done.
  - by apply cleanup_consistent.
Qed.

Lemma reachable_consistent w : Engine.reachable w → Engine.consistent w.
Proof.
  induction 1 as [db l u n|w o _ IH].
  - split.
    + intros sid s. simpl. by rewrite lookup_empty.
    + intros u' sid. simpl. by rewrite lookup_empty.
  - by apply run_consistent.
Qed.

(** A session found in the table after a call was there before, unless the
    call created it. *)
Lemma run_sessions w o session_id session :
  Engine.consistent w →
  GameManager.active_sessions (Engine.run w o) !! session_id = Some session →
  GameManager.active_sessions w !! session_id = Some session
  ∨ (GameManager.active_sessions w !! session_id = None
     ∧ ∃ user_id character game_id channel_id now,
         session = GameSession.init session_id user_id character game_id
                                    channel_id now).
Proof.
  intros Hcons.
  destruct o as [u c ch now|u|sid choice now|sid b|sid r cm|now]; simpl.
  - destruct (create_game_session_cases u c ch now w Hcons)
      as [->|(characters & character & db & _ & _ & _ & Hcase)]; [by left|].
    simpl in Hcase. destruct Hcase as (_ & _ & -> & _).
    intros [[<- <-]|[Hne Hlive]]%lookup_insert_Some.
    + right. split; [|by eauto 10].
      destruct (GameManager.active_sessions w !! GameManager.next_uuid w)
        as [s|] eqn:Hs; [|done].
      destruct Hcons as [Hw _]. destruct (Hw _ _ Hs) as (_ & ? & _). lia.
    + left. destruct (GameManager.user_sessions w !! u); [|done].
      by apply lookup_delete_Some in Hlive as [_ ?].
  - rewrite get_user_session_consistent by done. by left.
  - destruct (manager_make_decision_sessions w sid choice now) as (-> & _).
    by left.
  - intros ?%end_game_session_sessions. by left.
  - unfold GameManager.record_feedback.
    destruct (GameManager.active_sessions w !! sid); [|by left].
    destruct (GameManager.database w); by left.
  - intros ?%cleanup_sessions. by left.
Qed.

Lemma reachable_at_first_decision w :
  Engine.reachable w → Engine.at_first_decision w.
Proof.
  induction 1 as [db l u n|w o Hreach IH].
  - intros sid s. simpl. by rewrite lookup_empty.
  - intros sid s Hlive.
    apply run_sessions in Hlive as [Hold|[_ (? & ? & ? & ? & ? & ->)]];
      [by eapply IH| done | by apply reachable_consistent].
Qed.

(** C4.  In every state the engine can reach, the current decision index of
    every live session lies between 1 and the number of decisions plus one,
    and the session counts as completed exactly when the index exceeds the
    number of decisions; no call of the engine lowers the index of a
    session; and a session is created with index 1. *)
Theorem decision_index_stays_in_range (w : GameManager.t) :
  Engine.reachable w →
  (∀ session_id session,
     GameManager.active_sessions w !! session_id = Some session →
     1 ≤ GameSession.current_decision session
       ≤ Character.get_total_decisions (GameSession.character session) + 1
     ∧ (GameSession.is_completed session = true
        ↔ GameSession.current_decision session
          > Character.get_total_decisions (GameSession.character session)))
  ∧ (∀ o session_id before after,
       GameManager.active_sessions w !! session_id = Some before →
       GameManager.active_sessions (Engine.run w o) !! session_id = Some after →
       GameSession.current_decision before ≤ GameSession.current_decision after)
  ∧ (∀ user_id character_id channel_id now session,
       snd (GameManager.create_game_session user_id character_id channel_id
                                            now w) = Some session →
       GameSession.current_decision session = 1).
Proof.
  intros Hreach. pose proof (reachable_consistent _ Hreach) as Hcons.
  split; [|split].
  - intros sid s Hlive.
    pose proof (reachable_at_first_decision _ Hreach _ _ Hlive) as Hfirst.
    pose proof (get_total_decisions_nonneg (GameSession.character s)).
    split; [lia|]. unfold GameSession.is_completed.
    by rewrite bool_decide_eq_true.
  - intros o sid before after Hbefore Hafter.
    apply run_sessions in Hafter as [Hsame|[Hnone _]]; [|congruence|done].
    assert (before = after) as -> by congruence. lia.
  - intros u c ch now s Hs.
    destruct (create_game_session_cases u c ch now w Hcons)
      as [Hnone|(characters & character & db & _ & _ & _ & Hcase)].
    + rewrite Hnone in Hs. discriminate Hs.
    + simpl in Hcase. destruct Hcase as (Hsome & _).
      rewrite Hsome in Hs. by injection Hs as <-.
Qed.

Lemma decision_index_stays_in_range_witness :
  Engine.reachable Scenario.started
  ∧ (∀ session_id session,
       GameManager.active_sessions Scenario.started !! session_id = Some session →
       1 ≤ GameSession.current_decision session
         ≤ Character.get_total_decisions (GameSession.character session) + 1
       ∧ (GameSession.is_completed session = true
          ↔ GameSession.current_decision session
            > Character.get_total_decisions (GameSession.character session)))
  ∧ (∀ o session_id before after,
       GameManager.active_sessions Scenario.started !! session_id = Some before →
       GameManager.active_sessions (Engine.run Scenario.started o) !! session_id
       = Some after →
       GameSession.current_decision before ≤ GameSession.current_decision after)
  ∧ (∀ user_id character_id channel_id now session,
       snd (GameManager.create_game_session user_id character_id channel_id
                                            now Scenario.started) = Some session →
       GameSession.current_decision session = 1).
Proof.
  assert (Engine.reachable Scenario.started) as Hreach.
  { exact (Engine.reachable_run Scenario.w0 (Engine.Start 7 "alice" 100 0)
             (Engine.reachable_init _ _ _ _)). }
  split; [exact Hreach|].
  exact (decision_index_stays_in_range Scenario.started Hreach).
Defined.

(** C3, as the specification states it, fails in its last clause: when user
    7 starts a second session, the first one, id 0, leaves the table, and an
    [advance] on id 0 then returns the ordinary pair [(0, False)]; it does
    not end in the failure [SessionNotFound]. *)
Lemma superseded_session_is_not_a_failure :
  let '(w', session) :=
    GameManager.create_game_session 7 "alice" 100 50 Scenario.started in
  GameManager.user_sessions Scenario.started !! 7 = Some 0%nat
  ∧ (GameSession.id <$> session) = Some 1%nat
  ∧ GameManager.active_sessions w' !! 0%nat = None
  ∧ Engine.advance 0 "a" 60 w' = (w', Engine.Returned (0, false))
  ∧ snd (Engine.advance 0 "a" 60 w') ≠ Engine.Failed Engine.SessionNotFound.
Proof. vm_compute. repeat split; (reflexivity || discriminate). Qed.

(** C3, amended.  In every state the engine can reach, no two live sessions
    belong to the same user.  After a successful [startSession] the new
    session is the one registered for the user and the only live session of
    that user; a session the user had before has left the table, the
    database having been told to end it and not to complete its game; and a
    later [advance] on the old id returns [(0, False)] and changes
    nothing. *)
Theorem one_live_session_per_user (w : GameManager.t) :
  Engine.reachable w →
  (∀ id1 session1 id2 session2,
     GameManager.active_sessions w !! id1 = Some session1 →
     GameManager.active_sessions w !! id2 = Some session2 →
     GameSession.user_id session1 = GameSession.user_id session2 →
     id1 = id2)
  ∧ (∀ user_id character_id channel_id now w' session,
       GameManager.create_game_session user_id character_id channel_id now w
       = (w', Some session) →
       (GameManager.user_sessions w' !! user_id = Some (GameSession.id session)
        ∧ GameManager.active_sessions w' !! GameSession.id session = Some session
        ∧ GameSession.user_id session = user_id
        ∧ snd (GameManager.get_user_session user_id w') = Some session)
       ∧ (∀ session_id other,
            GameManager.active_sessions w' !! session_id = Some other →
            GameSession.user_id other = user_id →
            session_id = GameSession.id session)
       ∧ (∀ old,
            GameManager.user_sessions w !! user_id = Some old →
            GameManager.active_sessions w' !! old = None
            ∧ (∃ db,
                 GameManager.database w = Some db
                 ∧ (Database.calls <$> GameManager.database w')
                   = Some (Database.CreateSession (GameSession.id session)
                             user_id (GameSession.game_id session) channel_id
                           :: Database.EndSession old
                           :: Database.CreateGame user_id character_id
                                (GameSession.game_id session)
                           :: Database.GetOrCreateUser user_id
                                (default "Unknown"%string
                                         (GameManager.users w !! user_id))
                           :: Database.calls db))
            ∧ ∀ choice later,
                Engine.advance old choice later w'
                = (w', Engine.Returned (0, false)))).
Proof.
  intros Hreach. pose proof (reachable_consistent _ Hreach) as Hcons.
  split.
  - destruct Hcons as [Hw _]. intros id1 s1 id2 s2 H1 H2 Huser.
    destruct (Hw _ _ H1) as (_ & _ & Hr1).
    destruct (Hw _ _ H2) as (_ & _ & Hr2). congruence.
  - intros u c ch now w' s Hcreate.
    pose proof (create_game_session_consistent u c ch now w Hcons) as Hcons'.
    destruct (create_game_session_cases u c ch now w Hcons)
      as [Hnone|(characters & character & db & _ & _ & Hdb & Hcase)];
      [congruence|].
    rewrite Hcreate in Hcase, Hcons'. simpl in Hcase, Hcons'.
    destruct Hcase as ([= ->] & Hn & Ha & Hu & Hcalls). simpl.
    assert (GameManager.user_sessions w' !! u = Some (GameManager.next_uuid w))
      as Hreg by by rewrite Hu, lookup_insert_eq.
    assert (GameManager.active_sessions w' !! GameManager.next_uuid w
            = Some (GameSession.init (GameManager.next_uuid w) u character
                      (Database.next_game_id db) ch now))
      as Hlive by by rewrite Ha, lookup_insert_eq.
    split; [|split].
    + repeat split; [done..|].
      rewrite get_user_session_consistent by done. simpl. by rewrite Hreg.
    + intros sid other Hother Huser. destruct Hcons' as [Hw' _].
      destruct (Hw' _ _ Hother) as (_ & _ & Hmine).
      rewrite Huser in Hmine. congruence.
    + intros old Hold. destruct Hcons as [Hw Hregd].
      destruct (Hregd _ _ Hold) as (so & Hso & _).
      destruct (Hw _ _ Hso) as (_ & Hlt & _).
      assert (GameManager.active_sessions w' !! old = None) as Hgone.
      { rewrite Ha, Hold. rewrite lookup_insert_ne by lia.
        apply lookup_delete_eq. }
      split; [done|]. split.
      * exists db. split; [done|]. by rewrite Hcalls, Hold.
      * intros choice later. unfold Engine.advance.
        by rewrite manager_make_decision_unknown.
Qed.

Lemma one_live_session_per_user_witness :
  Engine.reachable Scenario.started
  ∧ GameManager.create_game_session 7 "alice" 100 50 Scenario.started
    = (Scenario.two_players_same_user,
       Some (GameSession.init 1 7 Scenario.alice 2 100 50))
  ∧ GameManager.user_sessions Scenario.started !! 7 = Some 0%nat
  ∧ GameManager.active_sessions Scenario.two_players_same_user !! 0%nat = None
  ∧ (∀ choice later,
       Engine.advance 0 choice later Scenario.two_players_same_user
       = (Scenario.two_players_same_user, Engine.Returned (0, false))).
Proof.
  assert (Engine.reachable Scenario.started) as Hreach.
  { exact (Engine.reachable_run Scenario.w0 (Engine.Start 7 "alice" 100 0)
             (Engine.reachable_init _ _ _ _)). }
  assert (GameManager.create_game_session 7 "alice" 100 50 Scenario.started
          = (Scenario.two_players_same_user,
             Some (GameSession.init 1 7 Scenario.alice 2 100 50))) as Hcreate.
  { vm_compute. reflexivity. }
  assert (GameManager.user_sessions Scenario.started !! 7 = Some 0%nat) as Hold.
  { vm_compute. reflexivity. }
  destruct (one_live_session_per_user Scenario.started Hreach) as [_ Hstart].
  destruct (Hstart 7 "alice"%string 100 50 _ _ Hcreate) as (_ & _ & Hsuper).
  destruct (Hsuper 0%nat Hold) as (Hgone & _ & Hadvance).
  repeat split; done.
Defined.

(** ** The sweep, with the database cog loaded *)

Lemma end_game_session_with_database session_id completed w db :
  GameManager.database w = Some db →
  GameManager.active_sessions
    (GameManager.end_game_session session_id completed w)
  = delete session_id (GameManager.active_sessions w).
Proof.
  intros Hdb.
  destruct (end_game_session_cases session_id completed w)
    as [Hsame|(session & db' & _ & _ & Ha & _)]; [|done].
  unfold GameManager.end_game_session in Hsame |- *.
  destruct (GameManager.active_sessions w !! session_id) as [s|] eqn:Hs.
  - rewrite Hdb in Hsame |- *. done.
  - by rewrite delete_id.
Qed.

Lemma sessions_to_remove_spec now w session_id :
  session_id ∈ GameManager.sessions_to_remove now w
  ↔ ∃ session,
      GameManager.active_sessions w !! session_id = Some session
      ∧ GameManager.timed_out now session = true.
Proof.
  unfold GameManager.sessions_to_remove. rewrite list_elem_of_fmap. split.
  - intros ([sid s] & -> & Hin). apply list_elem_of_filter in Hin as [Hout Hin].
    apply elem_of_map_to_list in Hin. by exists s.
  - intros (s & Hlive & Hout). exists (session_id, s). split; [done|].
    apply list_elem_of_filter. split; [done|]. by apply elem_of_map_to_list.
Qed.

Lemma cleanup_rounds_sessions l w db session_id :
  GameManager.database w = Some db →
  GameManager.active_sessions (foldl GameManager.cleanup_one w l) !! session_id
  = if decide (session_id ∈ l) then None
    else GameManager.active_sessions w !! session_id.
Proof.
  revert w db. induction l as [|x l IH]; intros w db Hdb; cbn [foldl].
  - case_decide as Hin; [|done]. by apply elem_of_nil in Hin.
  - destruct (cleanup_one_with_database w x db Hdb) as (Hone & [db' Hdb'] & _).
    rewrite (IH _ db' Hdb'), Hone.
    rewrite (end_game_session_with_database x false w db Hdb).
    destruct (decide (session_id ∈ l)) as [Hin|Hnin].
    + rewrite decide_True; [done|]. apply elem_of_cons. by right.
    + destruct (decide (session_id = x)) as [->|Hne].
      * rewrite decide_True by (apply elem_of_cons; by left).
        apply lookup_delete_eq.
      * rewrite decide_False.
        -- by rewrite lookup_delete_ne.
        -- intros [?|?]%elem_of_cons; done.
Qed.

(** The sweep removes the sessions idle for longer than the timeout, and
    those only. *)
Lemma cleanup_removes_the_idle now w db session_id :
  GameManager.database w = Some db →
  GameManager.active_sessions (GameManager.cleanup_old_sessions now w)
    !! session_id
  = match GameManager.active_sessions w !! session_id with
    | Some session =>
        if GameManager.timed_out now session then None else Some session
    | None => None
    end.
Proof.
  intros Hdb. unfold GameManager.cleanup_old_sessions.
  rewrite (cleanup_rounds_sessions _ _ db _ Hdb).
  destruct (decide (session_id ∈ GameManager.sessions_to_remove now w))
    as [Hin|Hnin].
  - apply sessions_to_remove_spec in Hin as (s & -> & ->). done.
  - destruct (GameManager.active_sessions w !! session_id) as [s|] eqn:Hs;
      [|done].
    destruct (GameManager.timed_out now s) eqn:Hout; [|done].
    exfalso. apply Hnin, sessions_to_remove_spec. by exists s.
Qed.

(** ** Games of the live sessions *)

Lemma run_sessions_old w o session_id session :
  (∀ user_id character_id channel_id now,
     o ≠ Engine.Start user_id character_id channel_id now) →
  GameManager.active_sessions (Engine.run w o) !! session_id = Some session →
  GameManager.active_sessions w !! session_id = Some session.
Proof.
  intros Hnot.
  destruct o as [u c ch now|u|sid choice now|sid b|sid r cm|now]; simpl.
  - by destruct (Hnot u c ch now).
  - unfold GameManager.get_user_session.
    destruct (GameManager.user_sessions w !! u) as [sid|]; [|done].
    by destruct (GameManager.active_sessions w !! sid).
  - by destruct (manager_make_decision_sessions w sid choice now) as (-> & _).
  - apply end_game_session_sessions.
  - unfold GameManager.record_feedback.
    destruct (GameManager.active_sessions w !! sid); [|done].
    by destruct (GameManager.database w).
  - apply cleanup_sessions.
Qed.

Lemma end_game_session_next_game_id session_id completed w :
  (Database.next_game_id <$>
     GameManager.database (GameManager.end_game_session session_id completed w))
  = (Database.next_game_id <$> GameManager.database w).
Proof.
  destruct (end_game_session_cases session_id completed w)
    as [->|(s & db & _ & Hdb & _ & _ & -> & _)]; [done|].
  rewrite Hdb. simpl.
  by destruct (completed && negb (GameSession.is_completed s)).
Qed.

Lemma cleanup_next_game_id now w :
  (Database.next_game_id <$>
     GameManager.database (GameManager.cleanup_old_sessions now w))
  = (Database.next_game_id <$> GameManager.database w).
Proof.
  unfold GameManager.cleanup_old_sessions.
  generalize (GameManager.sessions_to_remove now w). intros l. revert w.
  induction l as [|x l IH]; intros w; [done|]. simpl. rewrite IH.
  rewrite <- (end_game_session_next_game_id x false w).
  unfold GameManager.cleanup_one.
  destruct (GameManager.active_sessions _ !! x) as [s|]; [|done].
  by destruct (GameManager.users _ !! GameSession.user_id s).
Qed.

Lemma run_next_game_id_old w o :
  (∀ user_id character_id channel_id now,
     o ≠ Engine.Start user_id character_id channel_id now) →
  (Database.next_game_id <$> GameManager.database (Engine.run w o))
  = (Database.next_game_id <$> GameManager.database w).
Proof.
  intros Hnot.
  destruct o as [u c ch now|u|sid choice now|sid b|sid r cm|now]; simpl.
  - by destruct (Hnot u c ch now).
  - unfold GameManager.get_user_session.
    destruct (GameManager.user_sessions w !! u) as [sid|]; [|done].
    by destruct (GameManager.active_sessions w !! sid).
  - destruct (GameManager.active_sessions w !! sid) as [s|] eqn:Hs.
    + destruct (GameManager.database w) as [db|] eqn:Hdb.
      * rewrite (manager_make_decision_live _ _ _ _ _ _ Hs Hdb). simpl.
        by destruct (GameSession.is_completed s).
      * unfold GameManager.make_decision. rewrite Hs, Hdb. simpl.
        by rewrite Hdb.
    + by rewrite manager_make_decision_unknown.
  - apply end_game_session_next_game_id.
  - unfold GameManager.record_feedback.
    destruct (GameManager.active_sessions w !! sid); [|done].
    destruct (GameManager.database w) as [db|] eqn:Hdb; simpl; [done|].
    by rewrite Hdb.
  - apply cleanup_next_game_id.
Qed.

(** A successful [create_game_session] hands out the next game id. *)
Lemma create_game_session_next_game_id user_id character_id channel_id now w :
  Engine.consistent w →
  GameManager.create_game_session user_id character_id channel_id now w
  = (w, None)
  ∨ ∃ db,
      GameManager.database w = Some db
      ∧ (Database.next_game_id <$>
           GameManager.database
             (fst (GameManager.create_game_session user_id character_id
                                                   channel_id now w)))
        = Some (Database.next_game_id db + 1)
      ∧ (GameSession.game_id <$>
           snd (GameManager.create_game_session user_id character_id
                                                channel_id now w))
        = Some (Database.next_game_id db).
Proof.
  intros [Hw Hreg]. unfold GameManager.create_game_session.
  destruct (GameManager.character_loader w) as [characters|]; [|by left].
  destruct (characters !! character_id) as [character|]; [|by left].
  destruct (GameManager.database w) as [db|] eqn:Hdb; [|by left].
  right. exists db. split; [done|].
  unfold Database.create_game, GameManager.draw_uuid. simpl.
  destruct (GameManager.user_sessions w !! user_id) as [old|] eqn:Hu; [|done].
  destruct (Hreg _ _ Hu) as (so & Hold & Huser).
  destruct (Hw _ _ Hold) as (_ & Hlt & _).
  assert (GameManager.next_uuid w ≠ old) as Hne by lia.
  rewrite lookup_insert_ne by done. rewrite Hold.
  rewrite bool_decide_eq_true_2 by eauto.
  unfold GameManager.end_game_session. simpl.
  rewrite lookup_insert_ne by done. by rewrite Hold.
Qed.

Lemma run_games_ok w o :
  Engine.consistent w → Engine.games_ok w → Engine.games_ok (Engine.run w o).
Proof.
  intros Hcons [Hgame Hdistinct].
  assert ((∃ u c ch now, o = Engine.Start u c ch now)
          ∨ ¬ (∃ u c ch now, o = Engine.Start u c ch now))
    as [(u & c & ch & now & ->)|Hother].
  { destruct o; [left; by eauto|right; by intros (? & ? & ? & ? & ?)..]. }
  - simpl.
    destruct (create_game_session_next_game_id u c ch now w Hcons)
      as [->|(db & Hdb & Hnext & Hgid)]; [done|].
    destruct (create_game_session_cases u c ch now w Hcons)
      as [Hnone|(cs & character & db' & _ & _ & Hdb' & Hcase)].
    { rewrite Hnone in Hgid. discriminate Hgid. }
    rewrite Hdb in Hdb'. injection Hdb' as <-.
    simpl in Hcase. destruct Hcase as (_ & _ & Ha & _).
    set (w' := fst (GameManager.create_game_session u c ch now w)) in *.
    destruct (GameManager.database w') as [dbn|] eqn:Hdbn; [|done].
    simpl in Hnext. injection Hnext as Hnext.
    assert (Hold : ∀ sid s,
      GameManager.active_sessions w' !! sid = Some s →
      sid ≠ GameManager.next_uuid w →
      GameManager.active_sessions w !! sid = Some s).
    { intros sid s. rewrite Ha. intros Hlook Hne.
      rewrite lookup_insert_ne in Hlook by done.
      destruct (GameManager.user_sessions w !! u); [|done].
      by apply lookup_delete_Some in Hlook as [_ ?]. }
    assert (Hnew : ∀ s,
      GameManager.active_sessions w' !! GameManager.next_uuid w = Some s →
      GameSession.game_id s = Database.next_game_id db).
    { intros s. rewrite Ha, lookup_insert_eq. by intros [= <-]. }
    assert (Hless : ∀ sid s,
      GameManager.active_sessions w !! sid = Some s →
      GameSession.game_id s < Database.next_game_id db).
    { intros sid s Hs. destruct (Hgame _ _ Hs) as (db0 & Hdb0 & ?).
      congruence. }
    split.
    + intros sid s Hs. exists dbn. split; [done|].
      destruct (decide (sid = GameManager.next_uuid w)) as [->|Hne].
      * rewrite (Hnew _ Hs). lia.
      * pose proof (Hless _ _ (Hold _ _ Hs Hne)). lia.
    + intros id1 s1 id2 s2 H1 H2 Hsame.
      destruct (decide (id1 = GameManager.next_uuid w)) as [->|Hne1];
        destruct (decide (id2 = GameManager.next_uuid w)) as [->|Hne2].
      * done.
      * pose proof (Hless _ _ (Hold _ _ H2 Hne2)). rewrite (Hnew _ H1) in Hsame.
        lia.
      * pose proof (Hless _ _ (Hold _ _ H1 Hne1)). rewrite (Hnew _ H2) in Hsame.
        lia.
      * eapply Hdistinct; [by apply Hold|by apply Hold|done].
  - assert (∀ u c ch now, o ≠ Engine.Start u c ch now) as Hnot.
    { intros u c ch now ->. apply Hother. by eauto. }
    pose proof (run_next_game_id_old w o Hnot) as Hnext.
    split.
    + intros sid s Hs. apply run_sessions_old in Hs; [|done].
      destruct (Hgame _ _ Hs) as (db & Hdb & Hlt).
      rewrite Hdb in Hnext. simpl in Hnext.
      destruct (GameManager.database (Engine.run w o)) as [db'|]; [|done].
      exists db'. split; [done|]. injection Hnext as ->. done.
    + intros id1 s1 id2 s2 H1 H2.
      apply run_sessions_old in H1; [|done].
      apply run_sessions_old in H2; [|done]. by eapply Hdistinct.
Qed.

(** A character in the table after a load was built from an accepted file. *)
Lemma load_files_lookup files characters character_id c :
  foldl CharacterLoader.load_file characters files !! character_id = Some c →
  characters !! character_id = Some c
  ∨ ∃ data,
      (character_id, Some data) ∈ files
      ∧ fst (CharacterLoader._validate_character character_id data) = true
      ∧ c = Character.init character_id data.
Proof.
  revert characters. induction files as [|[file_id parsed] files IH];
    intros characters Hlook; simpl in Hlook; [by left|].
  apply IH in Hlook as [Hlook|(data & Hin & Hok & ->)].
  - unfold CharacterLoader.load_file in Hlook. simpl in Hlook.
    destruct parsed as [data|]; [|by left].
    destruct (CharacterLoader._validate_character file_id data).1 eqn:Hok;
      [|by left].
    apply lookup_insert_Some in Hlook as [[<- <-]|[_ Hlook]]; [|by left].
    right. exists data. split; [apply elem_of_cons; by left|done].
  - right. exists data. split; [apply elem_of_cons; by right|done].
Qed.

(** ** Completions of games *)
















(** * Further properties of the code *)

(** ** Character: the decision sequence *)

Lemma insert_sorted_permutation {A} (key : A → Z) x l :
  Sorting.insert_sorted key x l ≡ₚ x :: l.
Proof.
  induction l as [|y l IH]; simpl; [done|].
  case_bool_decide; [done|]. rewrite IH. apply Permutation_swap.
Qed.

Lemma sorted_permutation {A} (key : A → Z) l : Sorting.sorted key l ≡ₚ l.
Proof.
  induction l as [|x l IH]; simpl; [done|].
  by rewrite insert_sorted_permutation, IH.
Qed.



Lemma sorted_of_ascending {A} (key : A → Z) l :
  StronglySorted (λ a b, key a ≤ key b) l → Sorting.sorted key l = l.
Proof.
  induction 1 as [|x l Hl IH Hx]; simpl; [done|].
  rewrite IH. destruct l as [|y l']; simpl; [done|].
  inversion Hx; subst. by rewrite bool_decide_eq_true_2.
Qed.

Lemma init_sorted_decisions_permutation character_id data :
  Character.sorted_decisions (Character.init character_id data)
    ≡ₚ get_or (cd_decisions data) [].
Proof. simpl. apply sorted_permutation. Qed.

(** X1.  [Character.get_decision] returns a decision exactly for the
    numbers from 1 to [get_total_decisions()]; for 0, a negative number or
    a number past the end it returns [None]. *)
Theorem get_decision_in_range (c : Character.t) (number : Z) :
  is_Some (Character.get_decision c number)
  ↔ 1 ≤ number ≤ Character.get_total_decisions c.
Proof.
  unfold Character.get_decision, Character.get_total_decisions.
  case_bool_decide as Hout.
  - split; [by intros [? ?]|lia].
  - rewrite fmap_is_Some, lookup_lt_is_Some. lia.
Qed.

(** The decision keys of the scenario are plain. *)
Lemma alice_plain_keys :
  Forall (λ kd : dkey * Decision, Sorting.plain_key (fst kd))
         (get_or (cd_decisions Scenario.alice_data) []).
Proof.
  repeat constructor; unfold Sorting.plain_key, fst; vm_compute; reflexivity.
Qed.



(** X3.  When the decision keys of the file are integers or ASCII strings
    and its decisions are already in ascending key order (equal keys
    allowed), the sort leaves them as they are: decision number [n] of the
    character is the [n]-th decision of the file. *)
Theorem sorted_decisions_of_ordered_file
    (character_id : string) (data : CharacterData)
    (decisions : list (dkey * Decision)) (number : Z) :
  cd_decisions data = Some decisions →
  Forall (λ kd, Sorting.plain_key (fst kd)) decisions →
  StronglySorted
    (λ a b, Sorting.decision_sort_key (fst a) ≤ Sorting.decision_sort_key (fst b))
    decisions →
  1 ≤ number ≤ Z.of_nat (length decisions) →
  Character.sorted_decisions (Character.init character_id data) = decisions
  ∧ Character.get_decision (Character.init character_id data) number
    = snd <$> decisions !! Z.to_nat (number - 1).
Proof.
  intros Hd _ Hsorted Hrange.
  assert (Character.sorted_decisions (Character.init character_id data)
          = decisions) as Heq.
  { simpl. rewrite Hd. simpl.
    by apply (sorted_of_ascending
                (λ x : dkey * Decision, Sorting.decision_sort_key x.1)). }
  split; [done|]. unfold Character.get_decision. rewrite Heq.
  by rewrite bool_decide_eq_false_2 by lia.
Qed.

Lemma sorted_decisions_of_ordered_file_witness :
  Character.sorted_decisions Scenario.alice
  = [(KInt 1, Scenario.decision_1); (KInt 2, Scenario.decision_2)]
  ∧ Character.get_decision Scenario.alice 2
    = snd <$> [(KInt 1, Scenario.decision_1); (KInt 2, Scenario.decision_2)]
              !! Z.to_nat (2 - 1).
Proof.
  apply (sorted_decisions_of_ordered_file "alice" Scenario.alice_data
           [(KInt 1, Scenario.decision_1); (KInt 2, Scenario.decision_2)] 2).
  - reflexivity.
  - exact alice_plain_keys.
  - repeat constructor; vm_compute; discriminate.
  - simpl; lia.
Defined.

(** X4.  [Character.get_choice_score] is 0 unless the decision exists, has
    a [choices] mapping, the mapping has the choice and the choice has a
    score: a non-zero result is the score stored under that choice. *)
Theorem get_choice_score_nonzero
    (c : Character.t) (decision_number : Z) (choice : string) :
  Character.get_choice_score c decision_number choice ≠ 0 →
  ∃ decision choices choice_data,
    Character.get_decision c decision_number = Some decision
    ∧ d_choices decision = Some choices
    ∧ choices !! choice = Some choice_data
    ∧ choice_score choice_data
      = Some (Character.get_choice_score c decision_number choice).
Proof.
  unfold Character.get_choice_score.
  destruct (Character.get_decision c decision_number) as [d|]; [|done].
  destruct (d_choices d) as [choices|] eqn:Hd; [|done].
  destruct (choices !! choice) as [cd|] eqn:Hc; [|done].
  destruct (choice_score cd) as [score|] eqn:Hs; [|done].
  intros _. by exists d, choices, cd.
Qed.

Lemma get_choice_score_nonzero_witness :
  Character.get_choice_score Scenario.alice 1 "a" ≠ 0
  ∧ ∃ decision choices choice_data,
      Character.get_decision Scenario.alice 1 = Some decision
      ∧ d_choices decision = Some choices
      ∧ choices !! "a"%string = Some choice_data
      ∧ choice_score choice_data
        = Some (Character.get_choice_score Scenario.alice 1 "a").
Proof.
  assert (Character.get_choice_score Scenario.alice 1 "a" ≠ 0) as Hne.
  { vm_compute. discriminate. }
  split; [exact Hne|].
  exact (get_choice_score_nonzero Scenario.alice 1 "a" Hne).
Defined.

(** X5.  A decision has at most one correct choice: two choices that
    [Character.is_correct_choice] both accepts for the same decision are
    the same choice. *)
Theorem is_correct_choice_unique
    (c : Character.t) (decision_number : Z) (choice1 choice2 : string) :
  Character.is_correct_choice c decision_number choice1 = true →
  Character.is_correct_choice c decision_number choice2 = true →
  choice1 = choice2.
Proof.
  unfold Character.is_correct_choice.
  destruct (Character.get_decision c decision_number) as [d|]; [|done].
  destruct (d_correct_choice d) as [correct|]; [|done].
  intros H1%bool_decide_eq_true H2%bool_decide_eq_true. congruence.
Qed.

Lemma is_correct_choice_unique_witness :
  Character.is_correct_choice Scenario.alice 2 "b" = true
  ∧ Character.is_correct_choice Scenario.alice 2 "b" = true
  ∧ "b"%string = "b"%string.
Proof.
  assert (Character.is_correct_choice Scenario.alice 2 "b" = true) as H
    by (vm_compute; reflexivity).
  split; [exact H|]. split; [exact H|].
  exact (is_correct_choice_unique Scenario.alice 2 "b" "b" H H).
Defined.

(** X6.  A character built from a file the validator accepts has at least
    one decision, and each of its decisions has a correct choice that is
    one of the choices it offers and that [is_correct_choice] accepts. *)
Theorem validated_character_decisions
    (character_id : string) (data : CharacterData) :
  fst (CharacterLoader._validate_character character_id data) = true →
  1 ≤ Character.get_total_decisions (Character.init character_id data)
  ∧ ∀ number decision,
      Character.get_decision (Character.init character_id data) number
      = Some decision →
      ∃ choices correct_choice,
        d_choices decision = Some choices
        ∧ d_correct_choice decision = Some correct_choice
        ∧ is_Some (choices !! correct_choice)
        ∧ Character.is_correct_choice (Character.init character_id data)
            number correct_choice = true.
Proof.
  intros (_ & decisions & Hd & Hne & Hall)%validate_character_accepts.
  split.
  - rewrite init_total_decisions, Hd. simpl. destruct decisions; [done|].
    simpl. lia.
  - intros number decision Hget.
    assert (Spec.decision_ok decision) as Hok.
    { unfold Character.get_decision in Hget.
      case_bool_decide; [done|].
      apply fmap_Some in Hget as ([k d] & Hlook & ->).
      apply list_elem_of_lookup_2 in Hlook.
      pose proof (init_sorted_decisions_permutation character_id data) as Hperm.
      rewrite Hd in Hperm. change (get_or (Some decisions) []) with decisions in Hperm.
      rewrite <- Hperm in Hall.
      rewrite Forall_forall in Hall. exact (Hall _ Hlook). }
    destruct Hok as (_ & _ & _ & choices & correct & Hc & Hcc & _ & Hin).
    exists choices, correct. repeat split; [done..|].
    unfold Character.is_correct_choice. rewrite Hget, Hcc.
    by apply bool_decide_eq_true.
Qed.

Lemma validated_character_decisions_witness :
  fst (CharacterLoader._validate_character "alice" Scenario.alice_data) = true
  ∧ 1 ≤ Character.get_total_decisions Scenario.alice
  ∧ ∀ number decision,
      Character.get_decision Scenario.alice number = Some decision →
      ∃ choices correct_choice,
        d_choices decision = Some choices
        ∧ d_correct_choice decision = Some correct_choice
        ∧ is_Some (choices !! correct_choice)
        ∧ Character.is_correct_choice Scenario.alice number correct_choice = true.
Proof.
  assert (fst (CharacterLoader._validate_character "alice" Scenario.alice_data)
          = true) as Hok by (vm_compute; reflexivity).
  split; [exact Hok|].
  exact (validated_character_decisions "alice" Scenario.alice_data Hok).
Defined.

(** ** CharacterLoader: what a load leaves in the table *)

Lemma load_files_other files characters character_id :
  character_id ∉ (fst <$> files) →
  foldl CharacterLoader.load_file characters files !! character_id
  = characters !! character_id.
Proof.
  revert characters. induction files as [|[file_id parsed] files IH];
    intros characters Hnot; simpl; [done|].
  rewrite fmap_cons, not_elem_of_cons in Hnot. destruct Hnot as [Hne Hnot].
  rewrite IH by done. unfold CharacterLoader.load_file. simpl in *.
  destruct parsed as [data|]; [|done].
  destruct (CharacterLoader._validate_character file_id data).1; [|done].
  by rewrite lookup_insert_ne.
Qed.

(** X7.  A character that [get_character] finds after a load was built by
    [Character.__init__] from a file of that id which the validator
    accepted; it carries that id and has at least one decision. *)
Theorem loaded_character_was_accepted
    (files : list (string * option CharacterData))
    (character_id : string) (c : Character.t) :
  CharacterLoader.get_character
    (CharacterLoader._load_all_characters (Some files)) character_id = Some c →
  ∃ data,
    (character_id, Some data) ∈ files
    ∧ fst (CharacterLoader._validate_character character_id data) = true
    ∧ c = Character.init character_id data
    ∧ Character.id c = character_id
    ∧ 1 ≤ Character.get_total_decisions c.
Proof.
  unfold CharacterLoader.get_character. simpl.
  intros [Hempty|(data & Hin & Hok & ->)]%load_files_lookup.
  - by rewrite lookup_empty in Hempty.
  - exists data. repeat split; [done..|].
    apply validate_character_accepts in Hok as (_ & ds & Hd & Hne & _).
    rewrite init_total_decisions, Hd. destruct ds; [done|]. simpl. lia.
Qed.

Lemma loaded_character_was_accepted_witness :
  CharacterLoader.get_character
    (CharacterLoader._load_all_characters
       (Some [("alice"%string, Some Scenario.alice_data)])) "alice"
  = Some Scenario.alice
  ∧ ∃ data,
      (("alice"%string, Some data) : string * option CharacterData)
        ∈ [("alice"%string, Some Scenario.alice_data)]
      ∧ fst (CharacterLoader._validate_character "alice" data) = true
      ∧ Scenario.alice = Character.init "alice" data
      ∧ Character.id Scenario.alice = "alice"%string
      ∧ 1 ≤ Character.get_total_decisions Scenario.alice.
Proof.
  assert (CharacterLoader.get_character
            (CharacterLoader._load_all_characters
               (Some [("alice"%string, Some Scenario.alice_data)])) "alice"
          = Some Scenario.alice) as Hget by (vm_compute; reflexivity).
  split; [exact Hget|].
  exact (loaded_character_was_accepted _ _ _ Hget).
Defined.

(** X8.  When no two files of the directory give the same character id,
    every file that the validator accepts and whose decision keys are
    integers or ASCII strings is in the table after the load, under its
    id, whatever the other files are. *)
Theorem accepted_file_is_loaded
    (files : list (string * option CharacterData))
    (character_id : string) (data : CharacterData) :
  NoDup (fst <$> files) →
  (character_id, Some data) ∈ files →
  fst (CharacterLoader._validate_character character_id data) = true →
  Forall (λ kd, Sorting.plain_key (fst kd)) (get_or (cd_decisions data) []) →
  CharacterLoader.get_character
    (CharacterLoader._load_all_characters (Some files)) character_id
  = Some (Character.init character_id data).
Proof.
  unfold CharacterLoader.get_character. simpl.
  generalize (∅ : gmap string Character.t).
  induction files as [|[file_id parsed] files IH];
    intros characters Hnodup Hin Hok Hplain; [by apply elem_of_nil in Hin|].
  rewrite fmap_cons in Hnodup. apply NoDup_cons in Hnodup as [Hfresh Hnodup].
  simpl. apply elem_of_cons in Hin as [[= <- <-]|Hin].
  - rewrite load_files_other by done.
    unfold CharacterLoader.load_file. simpl. rewrite Hok.
    apply lookup_insert_eq.
  - by apply IH.
Qed.

Lemma accepted_file_is_loaded_witness :
  NoDup (fst <$> [("bob"%string, Some Scenario.alice_without_templates);
                  ("alice"%string, Some Scenario.alice_data)])
  ∧ CharacterLoader.get_character
      (CharacterLoader._load_all_characters
         (Some [("bob"%string, Some Scenario.alice_without_templates);
                ("alice"%string, Some Scenario.alice_data)])) "alice"
    = Some (Character.init "alice" Scenario.alice_data).
Proof.
  assert (NoDup (fst <$> [("bob"%string, Some Scenario.alice_without_templates);
                          ("alice"%string, Some Scenario.alice_data)])) as Hnd.
  { simpl. apply NoDup_cons. split.
    - intros Hin. apply list_elem_of_singleton in Hin. discriminate Hin.
    - apply NoDup_singleton. }
  split; [exact Hnd|].
  apply (accepted_file_is_loaded _ "alice" Scenario.alice_data Hnd).
  - apply elem_of_cons. right. apply elem_of_cons. by left.
  - vm_compute. reflexivity.
  - exact alice_plain_keys.
Defined.

(** ** utils/yaml_parser.py against the loader cog *)

(** X9.  The validator of the utility module gives on every character
    mapping the verdict of the validator of the loader cog: it accepts the
    mapping exactly when the seven required fields are present, there is at
    least one decision, and every decision has its five required fields, a
    non-empty choices mapping and a correct choice among its choices. *)
Theorem yaml_validator_same_verdict
    (character_id : string) (data : CharacterData) :
  YamlParser.validate_character_data character_id data
  = fst (CharacterLoader._validate_character character_id data)
  ∧ (YamlParser.validate_character_data character_id data = true
     ↔ Spec.acceptable data).
Proof.
  assert (YamlParser.validate_character_data character_id data
          = fst (CharacterLoader._validate_character character_id data))
    as Hsame.
  { unfold YamlParser.validate_character_data,
      CharacterLoader._validate_character.
    destruct (find _ Config.REQUIRED_CHARACTER_FIELDS); [done|].
    destruct (get_or (cd_decisions data) []) as [|kd rest]; [done|].
    destruct (CharacterLoader.check_decisions (kd :: rest)); [done|].
    by case_bool_decide. }
  split; [exact Hsame|]. rewrite Hsame. apply validate_character_accepts.
Qed.


(** ** GameSession: what playing keeps true *)

Lemma played_character c s : Play.played c s → GameSession.character s = c.
Proof.
  induction 1 as [| s n choice now _ IH | s now _ IH]; simpl; [done| |done].
  unfold GameSession.make_decision. by case_bool_decide.
Qed.

Lemma recorded_score_insert c made decision_number choice :
  made !! decision_number = None →
  Play.recorded_score c (<[decision_number := choice]> made)
  = Play.recorded_score c made
    + Character.get_choice_score c decision_number choice.
Proof.
  intros Hfresh. unfold Play.recorded_score.
  rewrite map_fold_insert_L; [done| |done]. intros. lia.
Qed.

Lemma played_record c s :
  Play.played c s →
  1 ≤ GameSession.current_decision s
  ∧ (∀ k, is_Some (GameSession.decisions_made s !! k)
          ↔ 1 ≤ k < GameSession.current_decision s)
  ∧ size (GameSession.decisions_made s)
    = Z.to_nat (GameSession.current_decision s - 1)
  ∧ GameSession.total_score s
    = Play.recorded_score c (GameSession.decisions_made s).
Proof.
  induction 1 as [| s n choice now Hs IH | s now _ IH]; [| |done].
  - simpl. split; [lia|]. split; [|done].
    intros k. rewrite lookup_empty. split; [by intros [? ?]|lia].
  - destruct IH as (Hpos & Hkeys & Hsize & Htotal).
    destruct (decide (n = GameSession.current_decision s)) as [->|Hne].
    2:{ by rewrite session_refuses_other_number. }
    rewrite make_decision_current_number. simpl.
    assert (GameSession.decisions_made s !! GameSession.current_decision s
            = None) as Hfresh.
    { apply eq_None_not_Some. rewrite Hkeys. lia. }
    split; [lia|]. split; [|split].
    + intros k. rewrite lookup_insert_is_Some, Hkeys. lia.
    + rewrite map_size_insert_None by done. lia.
    + rewrite recorded_score_insert by done.
      rewrite (played_character _ _ Hs). lia.
Qed.

(** X10.  In a session driven by its own [make_decision], whatever
    decision numbers are passed, the recorded decisions are exactly the
    decisions before the current one, one entry each, and the total score
    is the sum of the scores of the recorded choices. *)
Theorem played_session_record (c : Character.t) (s : GameSession.t) :
  Play.played c s →
  (∀ k, is_Some (GameSession.decisions_made s !! k)
        ↔ 1 ≤ k < GameSession.current_decision s)
  ∧ Z.of_nat (size (GameSession.decisions_made s))
    = GameSession.current_decision s - 1
  ∧ GameSession.total_score s
    = Play.recorded_score c (GameSession.decisions_made s).
Proof.
  intros (Hpos & Hkeys & Hsize & Htotal)%played_record.
  split; [done|]. split; [lia|done].
Qed.

Lemma played_scenario : Play.played Scenario.alice Scenario.played.
Proof.
  unfold Scenario.played. apply Play.played_make_decision.
  apply Play.played_make_decision. apply Play.played_init.
Qed.

Lemma played_session_record_witness :
  Play.played Scenario.alice Scenario.played
  ∧ (∀ k, is_Some (GameSession.decisions_made Scenario.played !! k)
          ↔ 1 ≤ k < GameSession.current_decision Scenario.played)
  ∧ Z.of_nat (size (GameSession.decisions_made Scenario.played))
    = GameSession.current_decision Scenario.played - 1
  ∧ GameSession.total_score Scenario.played
    = Play.recorded_score Scenario.alice
        (GameSession.decisions_made Scenario.played).
Proof.
  assert (Play.played Scenario.alice Scenario.played) as Hplayed.
  { unfold Scenario.played. apply Play.played_make_decision.
    apply Play.played_make_decision. apply Play.played_init. }
  split; [exact Hplayed|].
  exact (played_session_record Scenario.alice Scenario.played Hplayed).
Defined.

(** *** The maximum possible score as a sum *)

Lemma best_score_nonneg decision : 0 ≤ Play.best_score decision.
Proof.
  unfold Play.best_score. destruct (d_choices decision) as [choices|]; [|done].
  by destruct (highest_score_spec choices) as (? & _).
Qed.

Lemma best_at_nonneg c i : 0 ≤ Play.best_at c i.
Proof.
  unfold Play.best_at. destruct (Character.get_decision c i); [|done].
  apply best_score_nonneg.
Qed.

Lemma get_choice_score_le_best c i choice :
  Character.get_choice_score c i choice ≤ Play.best_at c i.
Proof.
  unfold Character.get_choice_score, Play.best_at, Play.best_score.
  destruct (Character.get_decision c i) as [d|]; [|done].
  destruct (d_choices d) as [choices|]; [|done].
  destruct (highest_score_spec choices) as (Hpos & Hub & _).
  destruct (choices !! choice) as [cd|] eqn:Hc; [|done].
  destruct (choice_score cd) as [score|] eqn:Hs; [|done].
  by eapply Hub.
Qed.

Lemma foldl_add_shift {A} (h : A → Z) (l : list A) (a : Z) :
  foldl (λ acc i, acc + h i) a l = a + foldl (λ acc i, acc + h i) 0 l.
Proof.
  revert a. induction l as [|x l IH]; intros a; simpl; [lia|].
  rewrite (IH (a + h x)), (IH (0 + h x)). lia.
Qed.

Lemma get_max_possible_score_sum s :
  GameSession.get_max_possible_score s
  = foldl (λ acc i, acc + Play.best_at (GameSession.character s) i) 0
          (seqZ 1 (Character.get_total_decisions (GameSession.character s))).
Proof.
  unfold GameSession.get_max_possible_score.
  generalize (seqZ 1 (Character.get_total_decisions (GameSession.character s))).
  generalize 0. intros a l. revert a.
  induction l as [|i l IH]; intros a; simpl; [done|].
  rewrite IH. f_equal. unfold Play.best_at, Play.best_score.
  destruct (Character.get_decision (GameSession.character s) i) as [d|]; [|lia].
  destruct (d_choices d); lia.
Qed.

Lemma best_upto_succ c (n : nat) :
  foldl (λ acc i, acc + Play.best_at c i) 0 (seqZ 1 (Z.of_nat (S n)))
  = foldl (λ acc i, acc + Play.best_at c i) 0 (seqZ 1 (Z.of_nat n))
    + Play.best_at c (1 + Z.of_nat n).
Proof. by rewrite seqZ_S, foldl_app. Qed.

Lemma best_upto_mono c (n m : nat) :
  (n ≤ m)%nat →
  foldl (λ acc i, acc + Play.best_at c i) 0 (seqZ 1 (Z.of_nat n))
  ≤ foldl (λ acc i, acc + Play.best_at c i) 0 (seqZ 1 (Z.of_nat m)).
Proof.
  induction 1 as [|m _ IH]; [lia|].
  rewrite best_upto_succ. pose proof (best_at_nonneg c (1 + Z.of_nat m)). lia.
Qed.

Lemma played_score_bound c s :
  Play.played c s →
  GameSession.total_score s
  ≤ foldl (λ acc i, acc + Play.best_at c i) 0
          (seqZ 1 (Z.min (GameSession.current_decision s - 1)
                         (Character.get_total_decisions c))).
Proof.
  induction 1 as [| s n choice now Hs IH | s now _ IH]; [| |done].
  - simpl. pose proof (get_total_decisions_nonneg c).
    by replace (Z.min (1 - 1) (Character.get_total_decisions c)) with 0 by lia.
  - pose proof (played_record _ _ Hs) as (Hpos & _).
    pose proof (get_total_decisions_nonneg c) as Htot.
    destruct (decide (n = GameSession.current_decision s)) as [->|Hne].
    2:{ by rewrite session_refuses_other_number. }
    rewrite make_decision_current_number. simpl.
    rewrite (played_character _ _ Hs).
    set (cur := GameSession.current_decision s) in *.
    destruct (decide (cur ≤ Character.get_total_decisions c)) as [Hin|Hout].
    + replace (Z.min (cur + 1 - 1) (Character.get_total_decisions c))
        with (Z.of_nat (S (Z.to_nat (cur - 1)))) by lia.
      rewrite best_upto_succ.
      replace (Z.min (cur - 1) (Character.get_total_decisions c))
        with (Z.of_nat (Z.to_nat (cur - 1))) in IH by lia.
      replace (1 + Z.of_nat (Z.to_nat (cur - 1))) with cur by lia.
      pose proof (get_choice_score_le_best c cur choice). lia.
    + replace (Z.min (cur + 1 - 1) (Character.get_total_decisions c))
        with (Z.min (cur - 1) (Character.get_total_decisions c)) by lia.
      assert (Character.get_choice_score c cur choice = 0) as ->; [|lia].
      unfold Character.get_choice_score, Character.get_decision,
        Character.get_total_decisions in *.
      by rewrite bool_decide_eq_true_2 by lia.
Qed.

(** X11.  In a session driven by its own [make_decision] the total score
    never exceeds [get_max_possible_score()], which is never negative. *)
Theorem played_score_within_maximum (c : Character.t) (s : GameSession.t) :
  Play.played c s →
  GameSession.total_score s ≤ GameSession.get_max_possible_score s
  ∧ 0 ≤ GameSession.get_max_possible_score s.
Proof.
  intros Hs. rewrite get_max_possible_score_sum, (played_character _ _ Hs).
  pose proof (played_score_bound _ _ Hs) as Hbound.
  pose proof (played_record _ _ Hs) as (Hpos & _).
  pose proof (get_total_decisions_nonneg c) as Htot.
  assert (∀ n, 0 ≤ n → n ≤ Character.get_total_decisions c →
    foldl (λ acc i, acc + Play.best_at c i) 0 (seqZ 1 n)
    ≤ foldl (λ acc i, acc + Play.best_at c i) 0
            (seqZ 1 (Character.get_total_decisions c))) as Hmono.
  { intros n Hn Hle.
    rewrite <- (Z2Nat.id n) by done.
    rewrite <- (Z2Nat.id (Character.get_total_decisions c)) by done.
    apply best_upto_mono. lia. }
  split.
  - etrans; [exact Hbound|]. apply Hmono; lia.
  - apply (Hmono 0); lia.
Qed.

Lemma played_score_within_maximum_witness :
  Play.played Scenario.alice Scenario.played
  ∧ GameSession.total_score Scenario.played
    ≤ GameSession.get_max_possible_score Scenario.played
  ∧ 0 ≤ GameSession.get_max_possible_score Scenario.played.
Proof.
  assert (Play.played Scenario.alice Scenario.played) as Hplayed.
  { unfold Scenario.played. apply Play.played_make_decision.
    apply Play.played_make_decision. apply Play.played_init. }
  split; [exact Hplayed|].
  exact (played_score_within_maximum Scenario.alice Scenario.played Hplayed).
Defined.

(** X12.  For every session, whatever its state, the number of correct
    decisions that [get_analysis] counts is between 0 and the number of
    decisions of the character, and is at most the number of recorded
    decisions; the reported total is the character's number of decisions. *)
Theorem correct_decisions_bounded (s : GameSession.t) :
  0 ≤ GameSession.a_correct_decisions (GameSession.get_analysis s)
    ≤ GameSession.a_total_decisions (GameSession.get_analysis s)
  ∧ GameSession.a_correct_decisions (GameSession.get_analysis s)
    ≤ Z.of_nat (size (GameSession.decisions_made s))
  ∧ GameSession.a_total_decisions (GameSession.get_analysis s)
    = Character.get_total_decisions (GameSession.character s).
Proof.
  simpl. rewrite count_correct_spec.
  set (c := GameSession.character s). set (made := GameSession.decisions_made s).
  set (P := λ kv : Z * string,
              Character.is_correct_choice c kv.1 kv.2 = true).
  split; [split; [lia|]|split; [|done]].
  - rewrite <- (size_dom (D := gset Z)).
    assert (dom (filter P made)
            ⊆ (list_to_set (seqZ 1 (Character.get_total_decisions c)) : gset Z))
      as Hsub.
    { intros k [v Hk]%elem_of_dom.
      apply map_lookup_filter_Some in Hk as [_ Hcorrect].
      unfold P, Character.is_correct_choice in Hcorrect. simpl in Hcorrect.
      destruct (Character.get_decision c k) as [d|] eqn:Hd; [|done].
      unfold Character.get_decision in Hd. case_bool_decide; [done|].
      apply elem_of_list_to_set, elem_of_seqZ.
      unfold Character.get_total_decisions. lia. }
    apply subseteq_size in Hsub.
    rewrite size_list_to_set in Hsub by apply NoDup_seqZ.
    rewrite length_seqZ in Hsub.
    pose proof (get_total_decisions_nonneg c). lia.
  - pose proof (map_subseteq_size _ _ (map_filter_subseteq P made)). lia.
Qed.

(** X13.  [get_max_possible_score()] is the sum, over the decisions of the
    character, of the highest choice score of the decision when that is
    positive and of 0 otherwise (also for a decision without [choices]). *)
Theorem max_possible_score_formula (s : GameSession.t) :
  GameSession.get_max_possible_score s
  = foldl (λ total (kd : dkey * Decision), total + Play.best_score (snd kd)) 0
          (Character.sorted_decisions (GameSession.character s))
  ∧ ∀ decision,
      0 ≤ Play.best_score decision
      ∧ (∀ choices key data score,
           d_choices decision = Some choices →
           choices !! key = Some data → choice_score data = Some score →
           score ≤ Play.best_score decision)
      ∧ (Play.best_score decision = 0
         ∨ ∃ choices key data,
             d_choices decision = Some choices
             ∧ choices !! key = Some data
             ∧ choice_score data = Some (Play.best_score decision)).
Proof.
  split.
  - rewrite get_max_possible_score_sum.
    set (c := GameSession.character s). set (l := Character.sorted_decisions c).
    assert (∀ k : nat, (k ≤ length l)%nat →
      foldl (λ acc i, acc + Play.best_at c i) 0 (seqZ 1 (Z.of_nat k))
      = foldl (λ total (kd : dkey * Decision), total + Play.best_score kd.2) 0
              (take k l)) as Hpre.
    { induction k as [|k IH]; intros Hk; [done|].
      rewrite best_upto_succ, IH by lia.
      destruct (lookup_lt_is_Some_2 l k) as [x Hx]; [lia|].
      rewrite (take_S_r _ _ _ Hx), foldl_app. simpl. f_equal.
      unfold Play.best_at, Character.get_decision. fold l.
      rewrite bool_decide_eq_false_2 by lia.
      replace (Z.to_nat (1 + Z.of_nat k - 1)) with k by lia.
      by rewrite Hx. }
    unfold Character.get_total_decisions. fold l.
    rewrite Hpre by done. by rewrite take_ge by done.
  - intros decision. unfold Play.best_score.
    destruct (d_choices decision) as [choices|] eqn:Hd.
    + destruct (highest_score_spec choices) as (Hpos & Hub & Hwit).
      split; [done|]. split.
      * intros ? key data score [= <-]. apply Hub.
      * destruct Hwit as [?|(key & data & ? & ?)]; [by left|].
        right. by exists choices, key, data.
    + split; [done|]. split; [done|by left].
Qed.

Lemma max_possible_score_formula_witness :
  GameSession.get_max_possible_score Scenario.played = 30
  ∧ 10 ≤ Play.best_score Scenario.decision_1.
Proof.
  destruct (max_possible_score_formula Scenario.played) as [Hsum Hbest].
  split; [rewrite Hsum; vm_compute; reflexivity|].
  destruct (Hbest Scenario.decision_1) as (_ & Hub & _).
  apply (Hub (<["a"%string := Scenario.choice 10]>
                (<["b"%string := Scenario.choice 4]> ∅))
             "a"%string (Scenario.choice 10) 10); reflexivity.
Defined.

(** ** GameManager: the calls one by one *)

(** X14.  With the database cog loaded, a sweep removes from the table
    exactly the sessions whose last activity lies more than [GAME_TIMEOUT]
    (300) seconds before the sweep, and leaves every other session as it
    was. *)
Theorem sweep_removes_exactly_the_idle
    (now : Z) (w : GameManager.t) (db : Database.t) (session_id : nat) :
  GameManager.database w = Some db →
  GameManager.active_sessions (GameManager.cleanup_old_sessions now w)
    !! session_id
  = match GameManager.active_sessions w !! session_id with
    | Some session =>
        if bool_decide (now - GameSession.last_activity session > 300 * 1000000)
        then None else Some session
    | None => None
    end.
Proof.
  intros Hdb. rewrite (cleanup_removes_the_idle now w db session_id Hdb).
  by destruct (GameManager.active_sessions w !! session_id).
Qed.

Lemma sweep_removes_exactly_the_idle_witness :
  GameManager.database Scenario.two_players
  = Some (Database.mk 3
            [Database.CreateSession 1 8 2 100;
             Database.CreateGame 8 "alice" 2;
             Database.GetOrCreateUser 8 "Unknown";
             Database.CreateSession 0 7 1 100;
             Database.CreateGame 7 "alice" 1;
             Database.GetOrCreateUser 7 "player"])
  ∧ GameManager.active_sessions
      (GameManager.cleanup_old_sessions 300000001 Scenario.two_players) !! 1%nat
    = match GameManager.active_sessions Scenario.two_players !! 1%nat with
      | Some session =>
          if bool_decide
               (300000001 - GameSession.last_activity session > 300 * 1000000)
          then None else Some session
      | None => None
      end.
Proof.
  assert (GameManager.database Scenario.two_players
          = Some (Database.mk 3
                    [Database.CreateSession 1 8 2 100;
                     Database.CreateGame 8 "alice" 2;
                     Database.GetOrCreateUser 8 "Unknown";
                     Database.CreateSession 0 7 1 100;
                     Database.CreateGame 7 "alice" 1;
                     Database.GetOrCreateUser 7 "player"])) as Hdb
    by (vm_compute; reflexivity).
  split; [exact Hdb|].
  exact (sweep_removes_exactly_the_idle 300000001 Scenario.two_players _ 1 Hdb).
Defined.

Lemma cleanup_one_without_database w session_id :
  GameManager.database w = None →
  GameManager.active_sessions (GameManager.cleanup_one w session_id)
  = GameManager.active_sessions w
  ∧ GameManager.user_sessions (GameManager.cleanup_one w session_id)
    = GameManager.user_sessions w
  ∧ GameManager.database (GameManager.cleanup_one w session_id) = None.
Proof.
  intros Hdb. unfold GameManager.cleanup_one, GameManager.end_game_session.
  destruct (GameManager.active_sessions w !! session_id) as [s|] eqn:Hs.
  - rewrite Hdb, Hs.
    by destruct (GameManager.users w !! GameSession.user_id s).
  - by rewrite Hs.
Qed.

Lemma cleanup_without_database now w :
  GameManager.database w = None →
  GameManager.active_sessions (GameManager.cleanup_old_sessions now w)
  = GameManager.active_sessions w
  ∧ GameManager.user_sessions (GameManager.cleanup_old_sessions now w)
    = GameManager.user_sessions w.
Proof.
  unfold GameManager.cleanup_old_sessions.
  generalize (GameManager.sessions_to_remove now w). intros l. revert w.
  induction l as [|x l IH]; intros w Hdb; [done|]. simpl.
  destruct (cleanup_one_without_database w x Hdb) as (Ha & Hu & Hdb').
  destruct (IH _ Hdb') as [-> ->]. done.
Qed.

(** X15.  While the database cog is not loaded the engine neither creates
    nor removes nor changes a session: [create_game_session] returns
    [None], [make_decision] returns [(0, False)], [record_feedback] returns
    [False], and after any call, the sweep included, both tables are what
    they were, apart from a stale user entry that [get_user_session]
    drops. *)
Theorem without_database_nothing_changes (w : GameManager.t) :
  GameManager.database w = None →
  (∀ user_id character_id channel_id now,
     GameManager.create_game_session user_id character_id channel_id now w
     = (w, None))
  ∧ (∀ session_id choice now,
       GameManager.make_decision session_id choice now w = (w, (0, false)))
  ∧ (∀ session_id rating comments,
       GameManager.record_feedback session_id rating comments w = (w, false))
  ∧ (∀ session_id completed,
       GameManager.end_game_session session_id completed w = w)
  ∧ (∀ o,
       GameManager.active_sessions (Engine.run w o)
       = GameManager.active_sessions w
       ∧ ((∀ user_id, o ≠ Engine.Lookup user_id) →
          GameManager.user_sessions (Engine.run w o)
          = GameManager.user_sessions w)).
Proof.
  intros Hdb.
  assert (∀ u c ch now,
    GameManager.create_game_session u c ch now w = (w, None)) as Hcreate.
  { intros. unfold GameManager.create_game_session.
    destruct (GameManager.character_loader w) as [cs|]; [|done].
    destruct (cs !! c); [|done]. by rewrite Hdb. }
  assert (∀ sid choice now,
    GameManager.make_decision sid choice now w = (w, (0, false))) as Hdecide.
  { intros. unfold GameManager.make_decision.
    destruct (GameManager.active_sessions w !! sid); [|done]. by rewrite Hdb. }
  assert (∀ sid r cm,
    GameManager.record_feedback sid r cm w = (w, false)) as Hfeedback.
  { intros. unfold GameManager.record_feedback.
    destruct (GameManager.active_sessions w !! sid); [|done]. by rewrite Hdb. }
  assert (∀ sid b, GameManager.end_game_session sid b w = w) as Hend.
  { intros. unfold GameManager.end_game_session.
    destruct (GameManager.active_sessions w !! sid); [|done]. by rewrite Hdb. }
  repeat (split; [done|]).
  intros [u c ch now|u|sid choice now|sid b|sid r cm|now]; simpl.
  - by rewrite Hcreate.
  - split.
    + unfold GameManager.get_user_session.
      destruct (GameManager.user_sessions w !! u) as [sid|]; [|done].
      by destruct (GameManager.active_sessions w !! sid).
    + intros Hne. by destruct (Hne u).
  - by rewrite Hdecide.
  - by rewrite Hend.
  - by rewrite Hfeedback.
  - destruct (cleanup_without_database now w Hdb) as [-> ->]. done.
Qed.

Lemma without_database_nothing_changes_witness :
  GameManager.database (GameManager.init None (Some Scenario.characters) ∅ 0)
  = None
  ∧ GameManager.create_game_session 7 "alice" 100 0
      (GameManager.init None (Some Scenario.characters) ∅ 0)
    = (GameManager.init None (Some Scenario.characters) ∅ 0, None).
Proof.
  split; [reflexivity|].
  destruct (without_database_nothing_changes
              (GameManager.init None (Some Scenario.characters) ∅ 0)
              eq_refl) as (Hcreate & _).
  apply Hcreate.
Defined.

(** X16.  [get_user_session] returns the session registered for the user
    when it is live and [None] otherwise; it never touches the session
    table nor another user's entry; after the call the user's entry, if
    any, points to a live session; and a second call returns the same
    answer and changes nothing. *)
Theorem get_user_session_heals (user_id : Z) (w : GameManager.t) :
  let w' := fst (GameManager.get_user_session user_id w) in
  let found := snd (GameManager.get_user_session user_id w) in
  found = (GameManager.user_sessions w !! user_id
           ≫= λ session_id, GameManager.active_sessions w !! session_id)
  ∧ GameManager.active_sessions w' = GameManager.active_sessions w
  ∧ (∀ other, other ≠ user_id →
       GameManager.user_sessions w' !! other
       = GameManager.user_sessions w !! other)
  ∧ (∀ session_id,
       GameManager.user_sessions w' !! user_id = Some session_id →
       GameManager.active_sessions w' !! session_id = found ∧ is_Some found)
  ∧ GameManager.get_user_session user_id w' = (w', found).
Proof.
  unfold GameManager.get_user_session.
  destruct (GameManager.user_sessions w !! user_id) as [sid|] eqn:Hu; simpl.
  - destruct (GameManager.active_sessions w !! sid) as [s|] eqn:Hs; simpl.
    + split; [done|]. split; [done|]. split; [done|]. split.
      * intros sid' Hsid'. rewrite Hu in Hsid'. injection Hsid' as <-.
        split; [done|by eexists].
      * by rewrite Hu, Hs.
    + split; [done|]. split; [done|]. split.
      * intros other Hne. by rewrite lookup_delete_ne.
      * split.
        -- intros sid' Hsid'. by rewrite lookup_delete_eq in Hsid'.
        -- by rewrite lookup_delete_eq.
  - split; [done|]. split; [done|]. split; [done|]. split.
    + intros sid Hsid. congruence.
    + by rewrite Hu.
Qed.

(** X17.  Ending a session twice is ending it once: the second
    [end_game_session] on the same id changes nothing, whatever the
    [completed] flags; and with the database cog loaded the session is out
    of the table after the first call, while the other sessions stay. *)
Theorem end_game_session_idempotent
    (session_id : nat) (first second : bool) (w : GameManager.t) :
  GameManager.end_game_session session_id second
    (GameManager.end_game_session session_id first w)
  = GameManager.end_game_session session_id first w
  ∧ (is_Some (GameManager.database w) →
     ∀ other,
       GameManager.active_sessions
         (GameManager.end_game_session session_id first w) !! other
       = if decide (other = session_id) then None
         else GameManager.active_sessions w !! other).
Proof.
  split.
  - destruct (GameManager.active_sessions w !! session_id) as [s|] eqn:Hs.
    + destruct (GameManager.database w) as [db|] eqn:Hdb.
      * assert (GameManager.active_sessions
                  (GameManager.end_game_session session_id first w)
                  !! session_id = None) as Hgone.
        { rewrite (end_game_session_with_database _ _ _ db Hdb).
          apply lookup_delete_eq. }
        unfold GameManager.end_game_session at 1. by rewrite Hgone.
      * assert (∀ b, GameManager.end_game_session session_id b w = w) as Hnop.
        { intros b. unfold GameManager.end_game_session. by rewrite Hs, Hdb. }
        by rewrite !Hnop.
    + assert (∀ b, GameManager.end_game_session session_id b w = w) as Hnop.
      { intros b. unfold GameManager.end_game_session. by rewrite Hs. }
      by rewrite !Hnop.
  - intros [db Hdb] other.
    rewrite (end_game_session_with_database session_id first w db Hdb).
    case_decide as Heq; [subst; apply lookup_delete_eq|].
    by rewrite lookup_delete_ne.
Qed.

(** X18.  In every state the engine can reach, each live session has a
    game id that the database handed out, and no two live sessions have
    the same game id: decisions and completions of different sessions go
    to different games. *)
Theorem live_sessions_have_their_own_games (w : GameManager.t) :
  Engine.reachable w →
  (∀ session_id session,
     GameManager.active_sessions w !! session_id = Some session →
     ∃ db,
       GameManager.database w = Some db
       ∧ GameSession.game_id session < Database.next_game_id db)
  ∧ (∀ id1 session1 id2 session2,
       GameManager.active_sessions w !! id1 = Some session1 →
       GameManager.active_sessions w !! id2 = Some session2 →
       GameSession.game_id session1 = GameSession.game_id session2 →
       id1 = id2).
Proof.
  induction 1 as [db l u n|w o Hreach IH].
  - split.
    + intros sid s Hs. simpl in Hs. by rewrite lookup_empty in Hs.
    + intros id1 s1 id2 s2 H1. simpl in H1. by rewrite lookup_empty in H1.
  - apply run_games_ok; [by apply reachable_consistent|exact IH].
Qed.

Lemma live_sessions_have_their_own_games_witness :
  Engine.reachable Scenario.two_players
  ∧ (∀ id1 session1 id2 session2,
       GameManager.active_sessions Scenario.two_players !! id1 = Some session1 →
       GameManager.active_sessions Scenario.two_players !! id2 = Some session2 →
       GameSession.game_id session1 = GameSession.game_id session2 →
       id1 = id2).
Proof.
  assert (Engine.reachable Scenario.two_players) as Hreach.
  { exact (Engine.reachable_run _ (Engine.Start 8 "alice" 100 200000000)
             (Engine.reachable_run Scenario.w0 (Engine.Start 7 "alice" 100 0)
                (Engine.reachable_init _ _ _ _))). }
  split; [exact Hreach|].
  exact (proj2 (live_sessions_have_their_own_games _ Hreach)).
Defined.

(** X19.  [record_feedback] succeeds exactly when the session is live and
    the database cog is loaded.  It never touches a session; on success
    the database is told to store the rating and the comments, as given,
    for the game of that session, and on failure nothing changes. *)
Theorem record_feedback_effect
    (session_id : nat) (rating : Z) (comments : option string)
    (w : GameManager.t) :
  let w' := fst (GameManager.record_feedback session_id rating comments w) in
  let ok := snd (GameManager.record_feedback session_id rating comments w) in
  (ok = true ↔ is_Some (GameManager.active_sessions w !! session_id)
               ∧ is_Some (GameManager.database w))
  ∧ GameManager.active_sessions w' = GameManager.active_sessions w
  ∧ GameManager.user_sessions w' = GameManager.user_sessions w
  ∧ (ok = false → w' = w)
  ∧ (∀ session db,
       GameManager.active_sessions w !! session_id = Some session →
       GameManager.database w = Some db →
       GameManager.database w'
       = Some (Database.mk (Database.next_game_id db)
                 (Database.RecordFeedback (GameSession.game_id session)
                                          rating comments
                  :: Database.calls db))).
Proof.
  unfold GameManager.record_feedback.
  destruct (GameManager.active_sessions w !! session_id) as [s|] eqn:Hs.
  - destruct (GameManager.database w) as [db|] eqn:Hdb; simpl.
    + split; [split; [by eauto|done]|]. split; [done|]. split; [done|].
      split; [done|]. by intros ? ? [= <-] [= <-].
    + split; [split; [done|by intros [_ [? ?]]]|]. by repeat split.
  - simpl. split; [split; [done|by intros [[? ?] _]]|]. by repeat split.
Qed.

(** X20.  Whatever the user types into the feedback modal, the rating that
    [on_submit] passes on lies between [MIN_RATING] and [MAX_RATING]: a
    readable rating below the range becomes [MIN_RATING], one above it
    [MAX_RATING], one within it is passed on unchanged, and an unreadable
    one becomes 3.  Empty or missing comments are passed on as [None], any
    other comments as they are.  On a live session, with the database cog
    loaded, [on_submit] succeeds and the database is told to store exactly
    that rating and those comments for the game of the session; otherwise
    it fails and changes nothing. *)
Theorem feedback_modal_rating_in_range
    (session_id : nat) (parsed : option Z) (comments : option string)
    (w : GameManager.t) :
  Config.MIN_RATING ≤ FeedbackModal.rating_value parsed ≤ Config.MAX_RATING
  ∧ (parsed = None → FeedbackModal.rating_value parsed = 3)
  ∧ (∀ rating, parsed = Some rating →
       (rating < Config.MIN_RATING →
        FeedbackModal.rating_value parsed = Config.MIN_RATING)
       ∧ (Config.MAX_RATING < rating →
          FeedbackModal.rating_value parsed = Config.MAX_RATING)
       ∧ (Config.MIN_RATING ≤ rating ≤ Config.MAX_RATING →
          FeedbackModal.rating_value parsed = rating))
  ∧ (comments = None ∨ comments = Some ""%string →
     FeedbackModal.comments_value comments = None)
  ∧ (∀ text, comments = Some text → text ≠ ""%string →
       FeedbackModal.comments_value comments = Some text)
  ∧ (∀ session db,
       GameManager.active_sessions w !! session_id = Some session →
       GameManager.database w = Some db →
       snd (FeedbackModal.on_submit session_id parsed comments w) = true
       ∧ GameManager.database
           (fst (FeedbackModal.on_submit session_id parsed comments w))
         = Some (Database.mk (Database.next_game_id db)
                   (Database.RecordFeedback (GameSession.game_id session)
                      (FeedbackModal.rating_value parsed)
                      (FeedbackModal.comments_value comments)
                    :: Database.calls db)))
  ∧ (GameManager.active_sessions w !! session_id = None
     ∨ GameManager.database w = None →
     FeedbackModal.on_submit session_id parsed comments w = (w, false)).
Proof.
  unfold Config.MIN_RATING, Config.MAX_RATING.
  split; [unfold FeedbackModal.rating_value; destruct parsed; lia|].
  split; [by intros ->|].
  split; [intros rating ->; unfold FeedbackModal.rating_value; lia|].
  split; [by intros [->| ->]|].
  split; [intros text -> Hne; by destruct text|].
  unfold FeedbackModal.on_submit, GameManager.record_feedback. split.
  - intros s db Hs Hdb. by rewrite Hs, Hdb.
  - intros [Hs|Hdb]; [by rewrite Hs|].
    rewrite Hdb. by destruct (GameManager.active_sessions w !! session_id).
Qed.

(** ** utils/session_manager.py *)

Lemma sm_end_session_cases {D} session_id (m : SessionManager.t D) :
  (SessionManager.active_sessions m !! session_id = None
   ∧ SessionManager.end_session session_id m = (m, false))
  ∨ ∃ session,
      SessionManager.active_sessions m !! session_id = Some session
      ∧ snd (SessionManager.end_session session_id m) = true
      ∧ SessionManager.active_sessions
          (fst (SessionManager.end_session session_id m))
        = delete session_id (SessionManager.active_sessions m)
      ∧ SessionManager.user_sessions
          (fst (SessionManager.end_session session_id m))
        = (if bool_decide (SessionManager.user_sessions m
                             !! SessionManager.user_id session
                           = Some session_id)
           then delete (SessionManager.user_id session)
                       (SessionManager.user_sessions m)
           else SessionManager.user_sessions m)
      ∧ SessionManager.next_uuid
          (fst (SessionManager.end_session session_id m))
        = SessionManager.next_uuid m.
Proof.
  unfold SessionManager.end_session.
  destruct (SessionManager.active_sessions m !! session_id) as [s|] eqn:Hs;
    [|by left].
  right. by exists s.
Qed.

Lemma sm_end_session_consistent {D} session_id (m : SessionManager.t D) :
  SessionManager.consistent m →
  SessionManager.consistent (fst (SessionManager.end_session session_id m)).
Proof.
  intros [Hm Hreg].
  destruct (sm_end_session_cases session_id m)
    as [[_ ->]|(s & Hs & _ & Ha & Hu & Hn)]; [done|].
  destruct (Hm _ _ Hs) as (_ & _ & Hmine).
  rewrite bool_decide_eq_true_2 in Hu by done.
  split.
  - intros sid s'. rewrite Ha, Hu, Hn.
    intros [Hne Hlive]%lookup_delete_Some.
    destruct (Hm _ _ Hlive) as (Hid & Hlt & Hsid).
    repeat split; [done..|].
    rewrite lookup_delete_ne; [done|]. intros Heq. congruence.
  - intros user sid. rewrite Ha, Hu.
    intros [Hne Hsid]%lookup_delete_Some.
    destruct (Hreg _ _ Hsid) as (s' & Hlive & Huser).
    exists s'. split; [|done].
    rewrite lookup_delete_ne; [done|]. intros <-. congruence.
Qed.

(** What [create_session] does to a consistent manager. *)
Lemma sm_create_session_tables {D} user_id (data : D) created now
    (m : SessionManager.t D) :
  SessionManager.consistent m →
  let m' := fst (SessionManager.create_session user_id data created now m) in
  let session_id := SessionManager.next_uuid m in
  snd (SessionManager.create_session user_id data created now m) = session_id
  ∧ SessionManager.next_uuid m' = S session_id
  ∧ SessionManager.active_sessions m'
    = <[session_id := SessionManager.mkSession session_id user_id data
                                               created now]>
        (match SessionManager.user_sessions m !! user_id with
         | Some old => delete old (SessionManager.active_sessions m)
         | None => SessionManager.active_sessions m
         end)
  ∧ SessionManager.user_sessions m'
    = <[user_id := session_id]> (SessionManager.user_sessions m).
Proof.
  intros [Hm Hreg]. unfold SessionManager.create_session. simpl.
  destruct (SessionManager.user_sessions m !! user_id) as [old|] eqn:Hu;
    [|done].
  destruct (Hreg _ _ Hu) as (so & Hold & Huser).
  destruct (Hm _ _ Hold) as (_ & Hlt & _).
  assert (SessionManager.next_uuid m ≠ old) as Hne by lia.
  rewrite lookup_insert_ne by done. rewrite Hold.
  rewrite bool_decide_eq_true_2 by eauto.
  unfold SessionManager.end_session. simpl.
  rewrite lookup_insert_ne by done. rewrite Hold. simpl.
  rewrite Huser, Hu. rewrite bool_decide_eq_true_2 by done. simpl.
  split; [done|]. split; [done|]. split.
  - by rewrite delete_insert_ne.
  - by rewrite insert_delete_eq.
Qed.

Lemma sm_create_session_consistent {D} user_id (data : D) created now
    (m : SessionManager.t D) :
  SessionManager.consistent m →
  SessionManager.consistent
    (fst (SessionManager.create_session user_id data created now m)).
Proof.
  intros Hcons. pose proof Hcons as [Hm Hreg].
  destruct (sm_create_session_tables user_id data created now m Hcons)
    as (_ & Hn & Ha & Hu).
  set (m' := fst (SessionManager.create_session _ _ _ _ m)) in *.
  assert (Hsub : ∀ sid s',
    match SessionManager.user_sessions m !! user_id with
    | Some old => delete old (SessionManager.active_sessions m)
    | None => SessionManager.active_sessions m
    end !! sid = Some s' →
    SessionManager.active_sessions m !! sid = Some s'
    ∧ SessionManager.user_sessions m !! user_id ≠ Some sid).
  { intros sid s'.
    destruct (SessionManager.user_sessions m !! user_id) as [old|].
    - intros [Hne ?]%lookup_delete_Some. split; [done|congruence].
    - done. }
  split.
  - intros sid s'. rewrite Ha, Hu, Hn.
    intros [[<- <-]|[Hne Hlive]]%lookup_insert_Some.
    + simpl. rewrite lookup_insert_eq. repeat split; [lia].
    + apply Hsub in Hlive as [Hlive Hnot].
      destruct (Hm _ _ Hlive) as (Hid & Hlt & Hmine).
      repeat split; [done|lia|].
      rewrite lookup_insert_ne; [done|]. intros Heq. congruence.
  - intros u sid. rewrite Ha, Hu.
    intros [[<- <-]|[Hne Hsid]]%lookup_insert_Some.
    + eexists. rewrite lookup_insert_eq. done.
    + destruct (Hreg _ _ Hsid) as (s' & Hlive & Huser).
      destruct (Hm _ _ Hlive) as (_ & Hlt & _).
      exists s'. split; [|done].
      rewrite lookup_insert_ne by lia.
      destruct (SessionManager.user_sessions m !! user_id) as [old|] eqn:Hold;
        [|done].
      rewrite lookup_delete_ne; [done|]. intros <-.
      destruct (Hreg _ _ Hold) as (so & Hso & Huo). congruence.
Qed.

Lemma sm_touch_consistent {D} session_id now (m : SessionManager.t D) :
  SessionManager.consistent m →
  SessionManager.consistent
    (fst (SessionManager.update_session_activity session_id now m)).
Proof.
  intros [Hm Hreg]. unfold SessionManager.update_session_activity.
  destruct (SessionManager.active_sessions m !! session_id) as [s|] eqn:Hs;
    [|done].
  destruct (Hm _ _ Hs) as (Hid & Hlt & Hmine). split; simpl.
  - intros sid s' [[<- <-]|[Hne Hlive]]%lookup_insert_Some; [done|].
    by apply Hm.
  - intros u sid Hu. destruct (Hreg _ _ Hu) as (s' & Hlive & Huser).
    destruct (decide (sid = session_id)) as [->|Hne].
    + eexists. rewrite lookup_insert_eq. split; [done|]. simpl. congruence.
    + exists s'. by rewrite lookup_insert_ne.
Qed.

Lemma sm_set_data_consistent {D} session_id (d : D) now (m : SessionManager.t D) :
  SessionManager.consistent m →
  SessionManager.consistent
    (fst (SessionManager.update_session_data session_id d now m)).
Proof.
  intros [Hm Hreg]. unfold SessionManager.update_session_data.
  destruct (SessionManager.active_sessions m !! session_id) as [s|] eqn:Hs;
    [|done].
  simpl. apply sm_touch_consistent.
  destruct (Hm _ _ Hs) as (Hid & Hlt & Hmine). split; simpl.
  - intros sid s' [[<- <-]|[Hne Hlive]]%lookup_insert_Some; [done|].
    by apply Hm.
  - intros u sid Hu. destruct (Hreg _ _ Hu) as (s' & Hlive & Huser).
    destruct (decide (sid = session_id)) as [->|Hne].
    + eexists. rewrite lookup_insert_eq. split; [done|]. simpl. congruence.
    + exists s'. by rewrite lookup_insert_ne.
Qed.

Lemma sm_run_consistent {D} (m : SessionManager.t D) o :
  SessionManager.consistent m →
  SessionManager.consistent (SessionManager.run m o).
Proof.
  intros Hcons.
  destruct o as [u d c now|u|sid now|sid d now|sid|timeout now]; simpl.
  - by apply sm_create_session_consistent.
  - destruct Hcons as [Hm Hreg]. unfold SessionManager.get_user_session.
    destruct (SessionManager.user_sessions m !! u) as [sid|] eqn:Hu; [|done].
    by destruct (Hreg _ _ Hu) as (s & -> & _).
  - by apply sm_touch_consistent.
  - by apply sm_set_data_consistent.
  - by apply sm_end_session_consistent.
  - generalize (SessionManager.get_inactive_sessions timeout now m).
    intros l. revert m Hcons.
    induction l as [|x l IH]; intros m Hcons; [done|].
    simpl. by apply IH, sm_end_session_consistent.
Qed.

Lemma sm_reachable_consistent {D} (m : SessionManager.t D) :
  SessionManager.reachable m → SessionManager.consistent m.
Proof.
  induction 1 as [n|m o _ IH].
  - split.
    + intros sid s. simpl. by rewrite lookup_empty.
    + intros u sid. simpl. by rewrite lookup_empty.
  - by apply sm_run_consistent.
Qed.

(** X21.  In every state a [SessionManager] can reach through its methods,
    no two live sessions belong to the same user.  [create_session]
    returns the id of a session that [get_user_session] then finds for the
    user, holding the data given; the session the user had before, if any,
    is gone; and the sessions of the other users are untouched. *)
Theorem session_manager_one_session_per_user
    {D : Type} (m : SessionManager.t D) :
  SessionManager.reachable m →
  (∀ id1 session1 id2 session2,
     SessionManager.active_sessions m !! id1 = Some session1 →
     SessionManager.active_sessions m !! id2 = Some session2 →
     SessionManager.user_id session1 = SessionManager.user_id session2 →
     id1 = id2)
  ∧ (∀ user_id data created now,
       let m' :=
         fst (SessionManager.create_session user_id data created now m) in
       let session_id :=
         snd (SessionManager.create_session user_id data created now m) in
       SessionManager.get_user_session user_id m'
       = (m', Some (SessionManager.mkSession session_id user_id data
                                             created now))
       ∧ (∀ old, SessionManager.user_sessions m !! user_id = Some old →
                 SessionManager.get_session old m' = None)
       ∧ (∀ other session,
            SessionManager.get_session other m = Some session →
            SessionManager.user_id session ≠ user_id →
            SessionManager.get_session other m' = Some session)).
Proof.
  intros Hcons%sm_reachable_consistent. pose proof Hcons as [Hm Hreg].
  split.
  - intros id1 s1 id2 s2 H1 H2 Huser.
    destruct (Hm _ _ H1) as (_ & _ & Hr1).
    destruct (Hm _ _ H2) as (_ & _ & Hr2). congruence.
  - intros u d created now.
    destruct (sm_create_session_tables u d created now m Hcons)
      as (Hid & Hn & Ha & Hu).
    cbv zeta. rewrite Hid. split; [|split].
    + unfold SessionManager.get_user_session.
      by rewrite Hu, lookup_insert_eq, Ha, lookup_insert_eq.
    + intros old Hold. unfold SessionManager.get_session. rewrite Ha, Hold.
      destruct (Hreg _ _ Hold) as (so & Hso & _).
      destruct (Hm _ _ Hso) as (_ & Hlt & _).
      rewrite lookup_insert_ne by lia. apply lookup_delete_eq.
    + unfold SessionManager.get_session. intros other s Hs Hne. rewrite Ha.
      destruct (Hm _ _ Hs) as (_ & Hlt & Hmine).
      rewrite lookup_insert_ne by lia.
      destruct (SessionManager.user_sessions m !! u) as [old|] eqn:Hold;
        [|done].
      rewrite lookup_delete_ne; [done|]. intros <-.
      destruct (Hreg _ _ Hold) as (so & Hso & Huo). congruence.
Qed.

Lemma session_manager_one_session_per_user_witness :
  SessionManager.reachable
    (fst (SessionManager.create_session 7 "first"%string 0 0
            (SessionManager.init 0)))
  ∧ SessionManager.get_session 0
      (fst (SessionManager.create_session 7 "second"%string 5 5
              (fst (SessionManager.create_session 7 "first"%string 0 0
                      (SessionManager.init 0)))))
    = None.
Proof.
  assert (SessionManager.reachable
            (fst (SessionManager.create_session 7 "first"%string 0 0
                    (SessionManager.init 0)))) as Hreach.
  { exact (SessionManager.reachable_run (SessionManager.init 0)
             (SessionManager.Create 7 "first"%string 0 0)
             (SessionManager.reachable_init 0)). }
  split; [exact Hreach|].
  destruct (session_manager_one_session_per_user _ Hreach) as [_ Hcreate].
  destruct (Hcreate 7 "second"%string 5 5) as (_ & Hold & _).
  apply Hold. vm_compute. reflexivity.
Defined.

Lemma sm_end_rounds {D} (l : list nat) (m : SessionManager.t D) session_id :
  SessionManager.active_sessions
    (foldl (λ m x, fst (SessionManager.end_session x m)) m l) !! session_id
  = if decide (session_id ∈ l) then None
    else SessionManager.active_sessions m !! session_id.
Proof.
  revert m. induction l as [|x l IH]; intros m; cbn [foldl].
  - case_decide as Hin; [|done]. by apply elem_of_nil in Hin.
  - rewrite IH.
    assert (SessionManager.active_sessions
              (fst (SessionManager.end_session x m))
            = delete x (SessionManager.active_sessions m)) as ->.
    { destruct (sm_end_session_cases x m) as [[Hx ->]|(s & _ & _ & -> & _)];
        [|done].
      simpl. by rewrite delete_id. }
    destruct (decide (session_id ∈ l)) as [Hin|Hnin].
    + rewrite decide_True; [done|]. apply elem_of_cons. by right.
    + destruct (decide (session_id = x)) as [->|Hne].
      * rewrite decide_True by (apply elem_of_cons; by left).
        apply lookup_delete_eq.
      * rewrite decide_False.
        -- by rewrite lookup_delete_ne.
        -- intros [?|?]%elem_of_cons; done.
Qed.


Lemma sm_inactive_spec {D} timeout now (m : SessionManager.t D) session_id :
  session_id ∈ SessionManager.get_inactive_sessions timeout now m
  ↔ ∃ session,
      SessionManager.active_sessions m !! session_id = Some session
      ∧ SessionManager.inactive (default Config.GAME_TIMEOUT timeout) now
                                session = true.
Proof.
  unfold SessionManager.get_inactive_sessions. rewrite list_elem_of_fmap.
  split.
  - intros ([sid s] & -> & Hin). apply list_elem_of_filter in Hin as [Hout Hin].
    apply elem_of_map_to_list in Hin. by exists s.
  - intros (s & Hlive & Hout). exists (session_id, s). split; [done|].
    apply list_elem_of_filter. split; [done|]. by apply elem_of_map_to_list.
Qed.




(** X23.  [end_session] returns [True] exactly when the session exists.
    Afterwards the session is gone and the session count is one less; every
    other session is as before; and ending it again returns [False] and
    changes nothing. *)
Theorem session_manager_end_session
    {D : Type} (session_id : nat) (m : SessionManager.t D) :
  let m' := fst (SessionManager.end_session session_id m) in
  let ended := snd (SessionManager.end_session session_id m) in
  (ended = true ↔ is_Some (SessionManager.get_session session_id m))
  ∧ SessionManager.get_session session_id m' = None
  ∧ (∀ other, other ≠ session_id →
       SessionManager.get_session other m'
       = SessionManager.get_session other m)
  ∧ SessionManager.get_session_count m'
    = SessionManager.get_session_count m - (if ended then 1 else 0)
  ∧ SessionManager.end_session session_id m' = (m', false).
Proof.
  cbv zeta. unfold SessionManager.get_session, SessionManager.get_session_count.
  destruct (sm_end_session_cases session_id m)
    as [[Hnone ->]|(s & Hs & Hok & Ha & _)]; simpl.
  - rewrite Hnone. split; [split; [done|by intros [? ?]]|].
    split; [done|]. split; [done|]. split; [lia|].
    unfold SessionManager.end_session. by rewrite Hnone.
  - rewrite Hok, Ha, Hs. split; [split; [by eauto|done]|].
    split; [apply lookup_delete_eq|]. split.
    + intros other Hne. by rewrite lookup_delete_ne.
    + split.
      * rewrite map_size_delete_Some by eauto.
        assert (size (SessionManager.active_sessions m) ≠ 0%nat)
          by (eapply map_size_ne_0_lookup_2; eauto).
        lia.
      * unfold SessionManager.end_session at 1.
        by rewrite Ha, lookup_delete_eq.
Qed.

(** X24.  [update_session_data] returns [True] exactly when the session
    exists.  It then replaces the data and stamps the activity time,
    keeping the id, the user and the creation time of the session; it
    touches no other session and no user entry.  For an unknown id it
    changes nothing. *)
Theorem session_manager_update_data
    {D : Type} (session_id : nat) (new_data : D) (now : Z)
    (m : SessionManager.t D) :
  let m' := fst (SessionManager.update_session_data session_id new_data now m) in
  let ok := snd (SessionManager.update_session_data session_id new_data now m) in
  (ok = true ↔ is_Some (SessionManager.get_session session_id m))
  ∧ SessionManager.get_session session_id m'
    = (λ s, SessionManager.mkSession (SessionManager.id s)
              (SessionManager.user_id s) new_data
              (SessionManager.created_at s) now)
      <$> SessionManager.get_session session_id m
  ∧ (∀ other, other ≠ session_id →
       SessionManager.get_session other m'
       = SessionManager.get_session other m)
  ∧ SessionManager.user_sessions m' = SessionManager.user_sessions m
  ∧ SessionManager.get_session_count m' = SessionManager.get_session_count m
  ∧ (ok = false → m' = m).
Proof.
  cbv zeta. unfold SessionManager.get_session, SessionManager.get_session_count,
    SessionManager.update_session_data.
  destruct (SessionManager.active_sessions m !! session_id) as [s|] eqn:Hs;
    simpl.
  - unfold SessionManager.update_session_activity. simpl.
    rewrite lookup_insert_eq. simpl.
    split; [split; [by eauto|done]|].
    split; [by rewrite lookup_insert_eq|]. split.
    + intros other Hne. by rewrite !lookup_insert_ne.
    + split; [done|]. split; [|done].
      rewrite insert_insert_eq.
      by rewrite map_size_insert_Some by eauto.
  - rewrite Hs. split; [split; [done|by intros [? ?]]|]. by repeat split.
Qed.

(** X25.  [update_session_activity] on a live session keeps it out of
    [get_inactive_sessions], and so out of the clean-up, for as long as
    the timeout has not fully elapsed since. *)
Theorem session_manager_activity_protects
    {D : Type} (session_id : nat) (now later : Z) (timeout : option Z)
    (m : SessionManager.t D) :
  is_Some (SessionManager.get_session session_id m) →
  later - now ≤ default Config.GAME_TIMEOUT timeout * 1000000 →
  let m' := fst (SessionManager.update_session_activity session_id now m) in
  snd (SessionManager.update_session_activity session_id now m) = true
  ∧ (session_id ∉ SessionManager.get_inactive_sessions timeout later m')
  ∧ is_Some
      (SessionManager.get_session session_id
         (fst (SessionManager.cleanup_inactive_sessions timeout later m'))).
Proof.
  unfold SessionManager.get_session. intros [s Hs] Hfresh. cbv zeta.
  unfold SessionManager.update_session_activity. rewrite Hs. simpl.
  set (m' := SessionManager.mk _ _ _).
  assert (session_id ∉ SessionManager.get_inactive_sessions timeout later m')
    as Hnot.
  { intros (s' & Hs' & Hout)%sm_inactive_spec.
    unfold m' in Hs'. simpl in Hs'. rewrite lookup_insert_eq in Hs'.
    injection Hs' as <-.
    unfold SessionManager.inactive in Hout. simpl in Hout.
    apply bool_decide_eq_true in Hout. lia. }
  split; [done|]. split; [done|].
  unfold SessionManager.cleanup_inactive_sessions. simpl.
  rewrite sm_end_rounds, decide_False by done.
  unfold m'. simpl. rewrite lookup_insert_eq. by eexists.
Qed.

Lemma session_manager_activity_protects_witness :
  is_Some (SessionManager.get_session 0
             (fst (SessionManager.create_session 7 "data"%string 0 0
                     (SessionManager.init 0))))
  ∧ 700000000 - 400000001 ≤ default Config.GAME_TIMEOUT None * 1000000
  ∧ 0%nat ∉ (SessionManager.get_inactive_sessions None 700000000
               (fst (SessionManager.update_session_activity 0 400000001
                       (fst (SessionManager.create_session 7 "data"%string 0 0
                               (SessionManager.init 0)))))).
Proof.
  assert (is_Some (SessionManager.get_session 0
                     (fst (SessionManager.create_session 7 "data"%string 0 0
                             (SessionManager.init 0))))) as Hlive.
  { vm_compute. by eexists. }
  assert (700000000 - 400000001 ≤ default Config.GAME_TIMEOUT None * 1000000)
    as Hfresh by (vm_compute; discriminate).
  split; [exact Hlive|]. split; [exact Hfresh|].
  exact (proj1 (proj2 (session_manager_activity_protects 0 400000001 700000000
                         None _ Hlive Hfresh))).
Defined.

(** ** The tables of the database cog *)




Lemma decision_sum_snoc game_id rows row :
  foldr (λ row total,
           if bool_decide (DatabaseTables.dr_game_id row = game_id)
           then DatabaseTables.dr_score row + total else total) 0
        (rows ++ [row])
  = foldr (λ row total,
             if bool_decide (DatabaseTables.dr_game_id row = game_id)
             then DatabaseTables.dr_score row + total else total) 0 rows
    + (if bool_decide (DatabaseTables.dr_game_id row = game_id)
       then DatabaseTables.dr_score row else 0).
Proof.
  induction rows as [|r rows IH]; simpl.
  - case_bool_decide; lia.
  - rewrite IH. repeat case_bool_decide; lia.
Qed.

(** X27.  [record_decision] keeps the running score of every game in step
    with its decision rows: the sum of the scores of the rows of the game
    it is called for grows by the score given, and so does the running
    score of that game when the game exists; nothing changes for any
    other game.  This is so when the numbers passed are 64-bit integers
    and the new running score is one as well. *)
Theorem record_decision_keeps_score_in_step
    (game_id decision_number : Z) (choice : string) (score now : Z)
    (db : DatabaseTables.t) :
  DatabaseTables.int64 game_id →
  DatabaseTables.int64 decision_number →
  DatabaseTables.int64 score →
  (∀ game,
     DatabaseTables.games db !! game_id = Some game →
     DatabaseTables.int64 (DatabaseTables.g_total_score game)
     ∧ DatabaseTables.int64 (DatabaseTables.g_total_score game + score)) →
  let db' :=
    DatabaseTables.record_decision game_id decision_number choice score now db in
  DatabaseTables.decision_sum game_id db'
  = DatabaseTables.decision_sum game_id db + score
  ∧ (DatabaseTables.g_total_score <$> DatabaseTables.games db' !! game_id)
    = ((λ g, DatabaseTables.g_total_score g + score) <$>
         DatabaseTables.games db !! game_id)
  ∧ (∀ other, other ≠ game_id →
       DatabaseTables.decision_sum other db'
       = DatabaseTables.decision_sum other db
       ∧ DatabaseTables.games db' !! other = DatabaseTables.games db !! other)
  ∧ (∀ any before,
       DatabaseTables.games db !! any = Some before →
       ∃ after,
         DatabaseTables.games db' !! any = Some after
         ∧ DatabaseTables.g_total_score after
           - DatabaseTables.decision_sum any db'
           = DatabaseTables.g_total_score before
             - DatabaseTables.decision_sum any db).
Proof.
  intros _ _ _ _.
  cbv zeta. unfold DatabaseTables.decision_sum, DatabaseTables.record_decision.
  simpl.
  assert (Hmine : (DatabaseTables.g_total_score <$>
                     alter (DatabaseTables.add_score score) game_id
                           (DatabaseTables.games db) !! game_id)
                  = ((λ g, DatabaseTables.g_total_score g + score) <$>
                       DatabaseTables.games db !! game_id)).
  { rewrite lookup_alter_eq.
    by destruct (DatabaseTables.games db !! game_id). }
  split; [|split; [done|split]].
  - rewrite decision_sum_snoc. simpl. by rewrite bool_decide_eq_true_2.
  - intros other Hne. rewrite decision_sum_snoc. simpl.
    rewrite bool_decide_eq_false_2 by done.
    rewrite lookup_alter_ne by done. split; [lia|done].
  - intros any before Hbefore. rewrite decision_sum_snoc. simpl.
    destruct (decide (any = game_id)) as [->|Hne].
    + rewrite lookup_alter_eq, Hbefore. simpl. eexists. split; [done|].
      rewrite bool_decide_eq_true_2 by done. simpl. lia.
    + rewrite lookup_alter_ne by done. exists before. split; [done|].
      rewrite bool_decide_eq_false_2 by done. lia.
Qed.

Lemma record_decision_keeps_score_in_step_witness :
  DatabaseTables.decision_sum 1 DatabaseTables.one_decision
  = DatabaseTables.decision_sum 1 DatabaseTables.new_game + 10
  ∧ (DatabaseTables.g_total_score <$>
       DatabaseTables.games DatabaseTables.one_decision !! 1)
    = ((λ g, DatabaseTables.g_total_score g + 10) <$>
         DatabaseTables.games DatabaseTables.new_game !! 1).
Proof.
  destruct (record_decision_keeps_score_in_step 1 1 "a" 10 3
              DatabaseTables.new_game) as (E1 & E2 & _).
  - unfold DatabaseTables.int64. lia.
  - unfold DatabaseTables.int64. lia.
  - unfold DatabaseTables.int64. lia.
  - intros game Hgame. vm_compute in Hgame. injection Hgame as <-.
    unfold DatabaseTables.int64. simpl. lia.
  - split; [exact E1|exact E2].
Defined.








